(** * sharper: an upload-and-resize middleware (index.js)

    The module exports [sharper(options)], which resolves a configuration
    and returns an Express middleware.  The middleware runs three tasks in
    an [async.waterfall]: [masterUpload] (multer), [processImages] (sharp,
    one derivation per entry of [options.sizes]) and [deleteMaster]
    (fs.unlink).  This file embeds that program and proves properties of
    it. *)

From stdpp Require Import gmap strings list fin_maps pretty.

Set Warnings "-register-all,-clear-no-such-hyp".

Open Scope string_scope.
Open Scope list_scope.
Open Scope Z_scope.

(** ** JavaScript values

    Configuration values are arbitrary JavaScript values.  Numbers are the
    integers; an object literal is the list of its members in source
    order. *)

Inductive JSVal : Type :=
| JUndefined
| JNull
| JBool (b : bool)
| JNum (n : Z)
| JStr (s : string)
| JObj (fields : list (string * JSVal))
| JArr (items : list JSVal).

(** An options object is a finite map from its own keys to values. *)
Abbreviation Options := (gmap string JSVal).

(** [o.k]: reading an absent key yields [undefined]. *)
Definition prop (o : Options) (k : string) : JSVal :=
  default JUndefined (o !! k).

(** [v.k] for a value [v] held in a variable.  Only object literals carry
    members; primitives and arrays have none of the names the program reads
    ([suffix], [width], [height]).  On [null] and [undefined] the read
    throws: [member] gives the value of a read that returns, the throw is
    that of [nullish] in the checked derivation below. *)
Fixpoint assoc (k : string) (fields : list (string * JSVal)) : option JSVal :=
  match fields with
  | [] => None
  | (k', v) :: rest => if String.eqb k k' then Some v else assoc k rest
  end.

Definition member (v : JSVal) (k : string) : JSVal :=
  match v with
  | JObj fields => default JUndefined (assoc k fields)
  | _ => JUndefined
  end.

(** Truthiness, as tested by [if (x)] and [x || y]. *)
Definition truthy (v : JSVal) : bool :=
  match v with
  | JUndefined | JNull => false
  | JBool b => b
  | JNum n => negb (n =? 0)
  | JStr s => negb (String.eqb s "")
  | JObj _ | JArr _ => true
  end.

(** [a || b] *)
Definition js_or (a b : JSVal) : JSVal := if truthy a then a else b.

(** [a === b].  Primitives compare by type and value.  An object is
    identical only to itself; every comparison the program makes has a
    primitive on one side, so a comparison involving an object is false. *)
Definition strict_equals (a b : JSVal) : bool :=
  match a, b with
  | JUndefined, JUndefined => true
  | JNull, JNull => true
  | JBool x, JBool y => Bool.eqb x y
  | JNum x, JNum y => x =? y
  | JStr x, JStr y => String.eqb x y
  | _, _ => false
  end.

(** ** Configuration resolver: [_.assign(defaultOptions, options)] *)

(** [_.assign(object, source)] copies every own key of [source] onto
    [object], one assignment per key. *)
Definition assign (object source : Options) : Options :=
  map_fold (λ k v acc, <[k := v]> acc) object source.

Definition defaultOptions : Options :=
  list_to_map [
    ("field", JStr "file");
    ("location", JStr "/var/www/uploads/");
    ("dirFormat", JStr "yyyy/mmm/d");
    ("fileNameLen", JNum 50);
    ("maxFileSize", JStr "10mb");
    ("accept", JArr [JStr "png"; JStr "jpeg"; JStr "jpg"]);
    ("output", JStr "jpg");
    ("sizes", JArr [JObj [("suffix", JStr "lg"); ("width", JNum 500);
                          ("height", JNum 500)]]);
    ("resize", JBool true);
    ("crop", JBool false);
    ("background", JObj [("r", JNum 200); ("g", JNum 200); ("b", JNum 200);
                         ("a", JNum 1)]);
    ("embed", JBool false);
    ("max", JBool false);
    ("min", JBool false);
    ("withoutEnlargement", JBool false);
    ("ignoreAspectRatio", JBool false);
    ("extract", JBool false);
    ("trim", JBool false);
    ("flatten", JBool false);
    ("extend", JBool false);
    ("negate", JBool false);
    ("rotate", JBool false);
    ("flip", JBool false);
    ("flop", JBool false);
    ("blur", JBool false);
    ("sharpen", JBool false);
    ("gamma", JBool false);
    ("grayscale", JBool false);
    ("greyscale", JBool false);
    ("normalize", JBool false);
    ("normalise", JBool false);
    ("progressive", JBool false);
    ("quality", JBool false)
  ].

(** [options = _.assign(defaultOptions, options)], the first statement of
    [sharper]. *)
Definition sharper_options (options : Options) : Options :=
  assign defaultOptions options.

(** The default table as the specification documents it: the storage
    defaults, [resize] on, the background colour, and every other
    transform toggle off. *)
Definition documented_toggles_off : list string :=
  ["crop"; "embed"; "max"; "min"; "withoutEnlargement"; "ignoreAspectRatio";
   "extract"; "trim"; "flatten"; "extend"; "negate"; "rotate"; "flip";
   "flop"; "blur"; "sharpen"; "gamma"; "grayscale"; "greyscale";
   "normalize"; "normalise"; "progressive"; "quality"].

Definition documented_defaults : list (string * JSVal) :=
  [ ("field", JStr "file");
    ("location", JStr "/var/www/uploads/");
    ("dirFormat", JStr "yyyy/mmm/d");
    ("fileNameLen", JNum 50);
    ("maxFileSize", JStr "10mb");
    ("accept", JArr [JStr "png"; JStr "jpeg"; JStr "jpg"]);
    ("output", JStr "jpg");
    ("sizes", JArr [JObj [("suffix", JStr "lg"); ("width", JNum 500);
                          ("height", JNum 500)]]);
    ("resize", JBool true);
    ("background", JObj [("r", JNum 200); ("g", JNum 200); ("b", JNum 200);
                         ("a", JNum 1)]) ]
  ++ map (λ k, (k, JBool false)) documented_toggles_off.

(** ** Errors and the upload state *)

(** The object built by [new Serror(message, code, field)]. *)
Record SerrorObject := {
  name : string;
  message : JSVal;
  code : JSVal;
  field : JSVal
}.

Definition Serror (message code field : JSVal) : SerrorObject := {|
  name := "Error";
  message := js_or message (JStr "error occurred.");
  code := js_or code JNull;
  field := js_or field JNull
|}.

(** An error value travelling through the callbacks: one of the module's
    own, or one reported by multer, sharp or the file system. *)
Inductive Error : Type :=
| OwnError (e : SerrorObject)
| LibraryError (origin detail : string).

(** The state object [{dir, destination, filename}] handed from
    [masterUpload] to the later tasks. *)
Record UploadState := {
  dir : string;
  destination : string;
  filename : string
}.

(** What a callback receives: [callback(err)] or [callback(null, value)]. *)
Inductive Outcome (A : Type) : Type :=
| Err (e : Error)
| Ok (a : A).
Arguments Err {A} e.
Arguments Ok {A} a.

(** ** External libraries

    The program calls into lodash, mime-types, bytes, dateformat,
    randomstring and the gravity table of sharp.  Their code is not part of
    the module; the functions the program uses are taken as an interface,
    with the two facts about them that the module relies on. *)

Class Libraries := {
  (** the language's number-to-string conversion *)
  number_to_string : Z → string;
  (** [mime.extension(type)]: the canonical extension, if the type has one
      (the library answers [false] otherwise) *)
  mime_extension : string → option string;
  mime_extension_nonempty :
    ∀ type ext, mime_extension type = Some ext → ext ≠ "";
  (** [_.has(sharp.gravity, v)] *)
  gravity_has : JSVal → bool;
  (** [sharp.gravity[v]] *)
  gravity_get : JSVal → JSVal;
  (** [_.toInteger(v)] and [_.toNumber(v)] *)
  toInteger : JSVal → JSVal;
  toNumber : JSVal → JSVal;
  (** [bytes(v)] *)
  bytes : JSVal → JSVal;
  (** [dateformat(date, format)], dates as timestamps *)
  dateformat : Z → JSVal → string;
  (** [randomstring.generate(length)], from the state of the generator,
      when it returns ([randomstring_returns] below tells when it does);
      asked for a number of characters, it returns that many *)
  randomstring : Z → JSVal → string;
  randomstring_length :
    ∀ seed n, 0 ≤ n → String.length (randomstring seed (JNum n)) = Z.to_nat n
}.

Section Sharper.
Context {libs : Libraries}.

(** String coercion, as performed by [+] when the other operand is a
    string. *)
Fixpoint js_to_string (v : JSVal) : string :=
  match v with
  | JUndefined => "undefined"
  | JNull => "null"
  | JBool true => "true"
  | JBool false => "false"
  | JNum n => number_to_string n
  | JStr s => s
  | JObj _ => "[object Object]"
  | JArr items =>
      String.concat ","
        (map (λ x, match x with
                   | JUndefined | JNull => ""
                   | _ => js_to_string x
                   end) items)
  end.

Fixpoint is_substring (needle hay : string) : bool :=
  String.prefix needle hay ||
  match hay with
  | EmptyString => false
  | String _ rest => is_substring needle rest
  end.

(** [_.includes(collection, value)]: a strict-equality scan of an array or
    of the values of an object, a substring search in a string, and false
    on anything else. *)
Definition includes (collection value : JSVal) : bool :=
  match collection with
  | JArr items => existsb (strict_equals value) items
  | JObj fields => existsb (strict_equals value) (map snd fields)
  | JStr s => is_substring (js_to_string value) s
  | _ => false
  end.

(** ** The sharp instance

    [sharp(path)] opens an image.  Its operations are fluent: each one
    records its parameters on the instance it is called on and returns
    that same instance, so a chain [master.background(..).resize(..)]
    leaves every operation on [master] itself.  The state of an instance
    is its input and the operations recorded so far.  [invoke] is a call
    that returns; a call that sharp rejects throws instead, which is
    [invoke_checked] below. *)

Record Call := { method : string; args : list JSVal }.

Record Sharp := { input : string; calls : list Call }.

Definition sharp (path : string) : Sharp :=
  {| input := path; calls := [] |}.

Definition invoke (m : string) (a : list JSVal) (q : Sharp) : Sharp :=
  {| input := input q; calls := calls q ++ [{| method := m; args := a |}] |}.

(** A one-armed [if (cond) { $query = assignment($query) }]. *)
Definition if_then (cond : bool) (assignment : Sharp → Sharp) (query : Sharp)
  : Sharp :=
  if cond then assignment query else query.

(** ** One derivation: the body of the [async.each] iteratee up to
    [toFile] (lines 225 to 343).  [$query] starts as the result of
    [master.background(..)] and is reassigned by each check that fires. *)
Definition derive_query (options : Options) (size : JSVal) (master : Sharp)
  : Sharp :=
  let query := invoke "background" [prop options "background"] master in
  let query :=
    if_then (strict_equals (prop options "resize") (JBool true))
      (invoke "resize" [member size "width"; member size "height"]) query in
  let query :=
    if_then (negb (strict_equals (prop options "crop") (JBool false))
             && gravity_has (prop options "crop"))
      (invoke "crop" [gravity_get (prop options "crop")]) query in
  let query :=
    if_then (strict_equals (prop options "embed") (JBool true))
      (invoke "embed" []) query in
  let query :=
    if_then (strict_equals (prop options "max") (JBool true))
      (invoke "max" []) query in
  let query :=
    if_then (strict_equals (prop options "min") (JBool true))
      (invoke "min" []) query in
  let query :=
    if_then (strict_equals (prop options "withoutEnlargement") (JBool true))
      (invoke "withoutEnlargement" []) query in
  let query :=
    if_then (strict_equals (prop options "ignoreAspectRatio") (JBool true))
      (invoke "ignoreAspectRatio" []) query in
  let query :=
    if_then (negb (strict_equals (prop options "extract") (JBool false)))
      (invoke "extract" [prop options "extract"]) query in
  let query :=
    if_then (negb (strict_equals (prop options "trim") (JBool false)))
      (invoke "trim" [toInteger (prop options "trim")]) query in
  let query :=
    if_then (strict_equals (prop options "flatten") (JBool true))
      (invoke "flatten" []) query in
  let query :=
    if_then (negb (strict_equals (prop options "extend") (JBool false)))
      (invoke "extend" [prop options "extend"]) query in
  let query :=
    if_then (strict_equals (prop options "negate") (JBool true))
      (invoke "negate" []) query in
  let query :=
    if_then (includes (JArr [JNum 0; JNum 90; JNum 180; JNum 270])
               (prop options "rotate"))
      (invoke "rotate" [prop options "rotate"]) query in
  let query :=
    if_then (strict_equals (prop options "flip") (JBool true))
      (invoke "flip" []) query in
  let query :=
    if_then (strict_equals (prop options "flop") (JBool true))
      (invoke "flop" []) query in
  let query :=
    if_then (negb (strict_equals (prop options "blur") (JBool false)))
      (if strict_equals (prop options "blur") (JBool true)
       then invoke "blur" []
       else invoke "blur" [toNumber (prop options "blur")]) query in
  let query :=
    if_then (strict_equals (prop options "sharpen") (JBool true))
      (invoke "sharpen" []) query in
  let query :=
    if_then (negb (strict_equals (prop options "gamma") (JBool false)))
      (if strict_equals (prop options "gamma") (JBool true)
       then invoke "gamma" []
       else invoke "gamma" [toNumber (prop options "gamma")]) query in
  let query :=
    if_then (strict_equals (prop options "grayscale") (JBool true)
             || strict_equals (prop options "greyscale") (JBool true))
      (invoke "grayscale" []) query in
  let query :=
    if_then (strict_equals (prop options "normalize") (JBool true)
             || strict_equals (prop options "normalise") (JBool true))
      (invoke "normalize" []) query in
  let query :=
    if_then (negb (strict_equals (prop options "quality") (JBool false)))
      (invoke "quality" [toInteger (prop options "quality")]) query in
  let query :=
    if_then (strict_equals (prop options "progressive") (JBool true))
      (invoke "progressive" []) query in
  query.

(** ** The world around one invocation *)

(** The uploaded file part, as multer presents it to [fileFilter]. *)
Record File := { mimetype : string }.

(** The request: at most one file part, submitted under the configured
    field. *)
Record Request := { req_file : option File }.

(** The options handed to [multer(..)]. *)
Record MulterOptions := {
  storage_destination : string;
  storage_filename : string;
  limits_fileSize : JSVal;
  limits_files : Z;
  single_field : JSVal
}.

(** What the invocation does to the outside, in order. *)
Inductive Event : Type :=
| Multer (config : MulterOptions)
| ToFile (path : string) (query : Sharp)
| Cache (enabled : bool)
| Unlink (path : string)
| SetSharper (state : UploadState)
| Next (err : option Error).

(** Everything the invocation depends on but does not decide: the clock,
    the random generator and the results of input and output. *)
Record Env := {
  (** [new Date()] *)
  now : Z;
  (** the state of the random generator *)
  random_seed : Z;
  (** multer storing an accepted file: a limit or write error, if any *)
  multer_result : option Error;
  (** [query.toFile(path, cb)]: the error passed to [cb], if any *)
  toFile_result : Sharp → string → option Error;
  (** the order in which the [toFile] callbacks of the sizes fire *)
  finish_order : list nat;
  (** [fs.unlink(path, cb)]: the error passed to [cb], if any *)
  unlink_result : string → option Error
}.

Record World := {
  files : gset string;
  trace : list Event
}.

Definition emit (e : Event) (w : World) : World :=
  {| files := files w; trace := trace w ++ [e] |}.

Definition write_file (path : string) (w : World) : World :=
  {| files := {[path]} ∪ files w; trace := trace w |}.

Definition remove_file (path : string) (w : World) : World :=
  {| files := files w ∖ {[path]}; trace := trace w |}.

(** A task of the waterfall: it acts on the world and calls back once. *)
Definition Task (A : Type) : Type := World → Outcome A * World.

(** [async.waterfall]: run the tasks in series, each receiving what the
    previous one passed on; the first error goes straight to the final
    callback. *)
Fixpoint waterfall_from {A} (tasks : list (A → Task A)) (a : A) : Task A :=
  match tasks with
  | [] => λ w, (Ok a, w)
  | task :: rest =>
      λ w, match task a w with
           | (Err e, w') => (Err e, w')
           | (Ok a', w') => waterfall_from rest a' w'
           end
  end.

Definition waterfall {A} (first : Task A) (rest : list (A → Task A))
  : Task A :=
  λ w, match first w with
       | (Err e, w') => (Err e, w')
       | (Ok a, w') => waterfall_from rest a w'
       end.

(** [async.each]: the iteratee is started on every item in order; each
    start may change the shared state [S].  The callbacks fire later, in
    [order]; the final callback receives the first error reported. *)
Fixpoint each_start {A S} (iteratee : A → S → option Error * S)
    (coll : list A) (s : S) : list (option Error) * S :=
  match coll with
  | [] => ([], s)
  | x :: rest =>
      let '(r, s1) := iteratee x s in
      let '(rs, s2) := each_start iteratee rest s1 in
      (r :: rs, s2)
  end.

Definition reported (results : list (option Error)) (i : nat)
  : option Error :=
  match results !! i with
  | Some (Some e) => Some e
  | _ => None
  end.

(** The first error in the order the callbacks fire; a callback that
    [order] does not list fires after the listed ones, in array order. *)
Definition first_error (results : list (option Error)) (order : list nat)
  : option Error :=
  head (omap (reported results) (order ++ seq 0%nat (length results))).

Definition each {A S} (coll : list A) (iteratee : A → S → option Error * S)
    (order : list nat) (s : S) : option Error * S :=
  let '(results, s') := each_start iteratee coll s in
  (first_error results order, s').

(** The items [async.each] visits in [options.sizes]: the elements of an
    array, the values of an object, the characters of a string, and nothing
    in any other value. *)
Definition collection_items (v : JSVal) : list JSVal :=
  match v with
  | JArr items => items
  | JObj fields => map snd fields
  | JStr s =>
      map (λ c, JStr (String c EmptyString)) (String.list_ascii_of_string s)
  | _ => []
  end.

(** ** The three tasks *)

Section Middleware.
Variable env : Env.
Variable options : Options.

(** [fileFilter(req, file, cb)]: [None] stands for [cb(null, true)]. *)
Definition fileFilter (file : File) : option Error :=
  let fileExt :=
    match mime_extension (mimetype file) with
    | Some ext => JStr ext
    | None => JBool false
    end in
  if includes (prop options "accept") fileExt
  then None
  else Some (OwnError (Serror (JStr "file not acceptable")
                              (JStr "FILE_TYPE_UNSUPPORTED") fileExt)).

(** [multer(config).single(field)(req, res, cb)]: the file part, if any,
    goes through the filter; a rejected file ends the upload with the
    filter's error, an accepted one is stored under
    [destination/filename].  The error passed to [cb] is returned. *)
Definition masterUploader (config : MulterOptions)
    (file_filter : File → option Error) (req : Request) (w : World)
  : option Error * World :=
  let w := emit (Multer config) w in
  match req_file req with
  | None => (None, w)
  | Some file =>
      match file_filter file with
      | Some e => (Some e, w)
      | None =>
          match multer_result env with
          | Some e => (Some e, w)
          | None =>
              (None,
               write_file (storage_destination config +:+ "/" +:+
                           storage_filename config) w)
          end
      end
  end.

Definition masterUpload (req : Request) : Task UploadState := λ w,
  let dir := dateformat (now env) (prop options "dirFormat") in
  let destination := js_to_string (prop options "location") +:+ dir in
  let filename :=
    randomstring (random_seed env) (prop options "fileNameLen") in
  let config := {|
    storage_destination := destination;
    storage_filename := filename;
    limits_fileSize := bytes (prop options "maxFileSize");
    limits_files := 1;
    single_field := prop options "field"
  |} in
  match masterUploader config fileFilter req w with
  | (Some err, w') => (Err err, w')
  | (None, w') =>
      (Ok {| dir := dir; destination := destination; filename := filename |},
       w')
  end.

(** [query.toFile(path, cb)]: the writer sees the instance as it is at the
    call; a successful write leaves a file at [path]. *)
Definition toFile (query : Sharp) (path : string) (w : World)
  : option Error * World :=
  let w := emit (ToFile path query) w in
  match toFile_result env query path with
  | Some e => (Some e, w)
  | None => (None, write_file path w)
  end.

(** The path of the variant of one size. *)
Definition variant_path (state : UploadState) (size : JSVal) : string :=
  destination state +:+ "/" +:+ filename state +:+ "." +:+
  js_to_string (member size "suffix") +:+ "." +:+
  js_to_string (prop options "output").

(** The iteratee of [async.each].  [master] is the one instance opened by
    [processImages]; the derivation is chained on it and leaves it
    changed. *)
Definition iteratee (state : UploadState) (size : JSVal)
    (s : Sharp * World) : option Error * (Sharp * World) :=
  let '(master, w) := s in
  let query := derive_query options size master in
  let '(err, w') := toFile query (variant_path state size) w in
  (err, (query, w')).

Definition processImages (state : UploadState) : Task UploadState := λ w,
  let master := sharp (destination state +:+ "/" +:+ filename state) in
  match each (collection_items (prop options "sizes")) (iteratee state)
             (finish_order env) (master, w) with
  | (Some err, (_, w')) => (Err err, w')
  | (None, (_, w')) => (Ok state, w')
  end.

Definition deleteMaster (state : UploadState) : Task UploadState := λ w,
  let w := emit (Cache false) w in
  let path := destination state +:+ "/" +:+ filename state in
  let w := emit (Unlink path) w in
  match unlink_result env path with
  | Some err => (Err err, w)
  | None => (Ok state, remove_file path w)
  end.

(** [waterfallCallback]: [next(err)], or [res.sharper = state; next()]. *)
Definition waterfallCallback (result : Outcome UploadState) (w : World)
  : World :=
  match result with
  | Err err => emit (Next (Some err)) w
  | Ok state => emit (Next None) (emit (SetSharper state) w)
  end.

(** The waterfall of the three tasks. *)
Definition tasks (req : Request) : Task UploadState :=
  waterfall (masterUpload req) [processImages; deleteMaster].

(** The middleware returned by [sharper]. *)
Definition middleware (req : Request) (w : World) : World :=
  let '(result, w') := tasks req w in
  waterfallCallback result w'.

End Middleware.

End Sharper.

(** [sharper(options)]: resolve the configuration, return the middleware. *)
Definition sharper {libs : Libraries} (env : Env) (options : Options)
  : Request → World → World :=
  middleware env (sharper_options options).

(** The world before the invocation: no file of interest, nothing done. *)
Definition initial_world : World := {| files := ∅; trace := [] |}.

Section Readings.
Context {libs : Libraries}.

(** ** The derivation read as a table

    The specification describes the derivation as an ordered list of
    toggles, each with a skip state and an operation.  A boolean-gated
    toggle is on when its value is [true]; a value-gated toggle is on
    unless its value is [false]; crop needs a recognised gravity token and
    rotate one of the four right angles; grayscale and normalize accept
    either spelling; background has no skip state. *)

Record Toggle := {
  toggle : string;
  active : Options → bool;
  operation : Options → JSVal → Call
}.

Definition is_js_true (v : JSVal) : bool :=
  match v with JBool true => true | _ => false end.

Definition is_js_false (v : JSVal) : bool :=
  match v with JBool false => true | _ => false end.

Definition right_angle (v : JSVal) : bool :=
  match v with
  | JNum n => bool_decide (n ∈ [0; 90; 180; 270])
  | _ => false
  end.

Definition boolean_toggle (name : string) : Toggle := {|
  toggle := name;
  active o := is_js_true (prop o name);
  operation _ _ := {| method := name; args := [] |}
|}.

Definition value_toggle (name : string) (argument : JSVal → list JSVal)
  : Toggle := {|
  toggle := name;
  active o := negb (is_js_false (prop o name));
  operation o _ := {| method := name; args := argument (prop o name) |}
|}.

Definition alias_toggle (name alias : string) : Toggle := {|
  toggle := name;
  active o := is_js_true (prop o name) || is_js_true (prop o alias);
  operation _ _ := {| method := name; args := [] |}
|}.

Definition value_or_default (v : JSVal) : list JSVal :=
  if is_js_true v then [] else [toNumber v].

Definition toggle_table : list Toggle := [
  {| toggle := "background";
     active _ := true;
     operation o _ :=
       {| method := "background"; args := [prop o "background"] |} |};
  {| toggle := "resize";
     active o := is_js_true (prop o "resize");
     operation _ size :=
       {| method := "resize";
          args := [member size "width"; member size "height"] |} |};
  {| toggle := "crop";
     active o :=
       negb (is_js_false (prop o "crop")) && gravity_has (prop o "crop");
     operation o _ :=
       {| method := "crop"; args := [gravity_get (prop o "crop")] |} |};
  boolean_toggle "embed";
  boolean_toggle "max";
  boolean_toggle "min";
  boolean_toggle "withoutEnlargement";
  boolean_toggle "ignoreAspectRatio";
  value_toggle "extract" (λ v, [v]);
  value_toggle "trim" (λ v, [toInteger v]);
  boolean_toggle "flatten";
  value_toggle "extend" (λ v, [v]);
  boolean_toggle "negate";
  {| toggle := "rotate";
     active o := right_angle (prop o "rotate");
     operation o _ := {| method := "rotate"; args := [prop o "rotate"] |} |};
  boolean_toggle "flip";
  boolean_toggle "flop";
  value_toggle "blur" value_or_default;
  boolean_toggle "sharpen";
  value_toggle "gamma" value_or_default;
  alias_toggle "grayscale" "greyscale";
  alias_toggle "normalize" "normalise";
  value_toggle "quality" (λ v, [toInteger v]);
  boolean_toggle "progressive"
].

(** The operations of one derivation according to the table. *)
Definition table_operations (options : Options) (size : JSVal) : list Call :=
  map (λ t, operation t options size)
      (List.filter (λ t, active t options) toggle_table).

(** Whether a list of calls holds a call of the given method, how many,
    and the last one. *)
Definition calls_of (name : string) (l : list Call) : list Call :=
  List.filter (λ c, String.eqb (method c) name) l.

Definition calls_method (name : string) (l : list Call) : bool :=
  existsb (λ c, String.eqb (method c) name) l.

Definition last_call (name : string) (l : list Call) : option Call :=
  last (calls_of name l).

(** Appending a batch of calls to an instance. *)
Definition record_calls (l : list Call) (q : Sharp) : Sharp :=
  {| input := input q; calls := calls q ++ l |}.


(** The writes of [processImages], in the order they are started: the
    path of each variant and the instance as the writer sees it. *)
Fixpoint variant_writes (options : Options) (state : UploadState)
    (sizes : list JSVal) (master : Sharp) : list (string * Sharp) :=
  match sizes with
  | [] => []
  | size :: rest =>
      let query := derive_query options size master in
      (variant_path options state size, query)
      :: variant_writes options state rest query
  end.

(** Whether an event is a call of [next]. *)
Definition is_Next (e : Event) : bool :=
  match e with
  | Next _ => true
  | _ => false
  end.

Definition write_events (ws : list (string * Sharp)) : list Event :=
  map (λ pq, ToFile pq.1 pq.2) ws.

Definition write_results (env : Env) (ws : list (string * Sharp))
  : list (option Error) :=
  map (λ pq, toFile_result env pq.2 pq.1) ws.

Definition write_ok (env : Env) (pq : string * Sharp) : bool :=
  match toFile_result env pq.2 pq.1 with
  | None => true
  | Some _ => false
  end.

(** The variants left on storage by the writes that succeeded. *)
Definition written (env : Env) (ws : list (string * Sharp)) : gset string :=
  list_to_set (map fst (List.filter (write_ok env) ws)).

(** The reading of the specification in which the derivations of the
    sizes are isolated from each other: every write sees the instance as
    a derivation of its own entry alone, started on the freshly opened
    master, would leave it. *)
Definition writes_isolated (options : Options) (state : UploadState)
    (events : list Event) : Prop :=
  ∀ path query, ToFile path query ∈ events →
    ∃ size, size ∈ collection_items (prop options "sizes") ∧
      path = variant_path options state size ∧
      query = derive_query options size
                (sharp (destination state +:+ "/" +:+ filename state)).

End Readings.

(** ** What [masterUpload] prepares, and the keys a derivation reads *)

Section Plan.
Context {libs : Libraries}.

(** The state object [masterUpload] builds from the clock, the random
    generator and the options, before the upload starts. *)
Definition upload_state (env : Env) (options : Options) : UploadState := {|
  dir := dateformat (now env) (prop options "dirFormat");
  destination :=
    js_to_string (prop options "location") +:+
    dateformat (now env) (prop options "dirFormat");
  filename := randomstring (random_seed env) (prop options "fileNameLen")
|}.

(** The options it hands to multer. *)
Definition upload_config (env : Env) (options : Options) : MulterOptions := {|
  storage_destination := destination (upload_state env options);
  storage_filename := filename (upload_state env options);
  limits_fileSize := bytes (prop options "maxFileSize");
  limits_files := 1;
  single_field := prop options "field"
|}.

End Plan.

(** The option keys read between [master.background] and [toFile]. *)
Definition toggle_keys : list string :=
  ["background"; "resize"; "crop"; "embed"; "max"; "min";
   "withoutEnlargement"; "ignoreAspectRatio"; "extract"; "trim"; "flatten";
   "extend"; "negate"; "rotate"; "flip"; "flop"; "blur"; "sharpen"; "gamma";
   "grayscale"; "greyscale"; "normalize"; "normalise"; "quality";
   "progressive"].

(** The toggles the program gates with [!== false]. *)
Definition value_toggles : list string :=
  ["extract"; "trim"; "extend"; "blur"; "gamma"; "quality"].

(** ** Synchronous exceptions

    The definitions above give what each step computes when it returns.
    Three steps of the program can instead throw: a method of the sharp
    instance that rejects its arguments, [randomstring.generate] on a
    length it cannot read, and the read of a member of a [null] or
    [undefined] size entry.  Nothing in the module catches an exception:
    a throw ends the invocation on the spot, before any callback is
    called.  Which arguments the two libraries reject is part of their
    interface. *)

Class Validation := {
  (** whether [instance.method(args)] returns rather than throws *)
  sharp_accepts : string → list JSVal → bool;
  (** whether [randomstring.generate(length)] returns rather than throws *)
  randomstring_returns : JSVal → bool
}.

(** [null] and [undefined], on which a member read throws. *)
Definition nullish (v : JSVal) : bool :=
  match v with
  | JUndefined | JNull => true
  | _ => false
  end.

(** The chain of a derivation: still running on the instance, or ended by
    a throw, the instance holding the calls made before it. *)
Inductive Chain : Type :=
| Running (query : Sharp)
| Thrown (query : Sharp).

(** A computation that returns, or throws with the world as it is then. *)
Inductive Run (A : Type) : Type :=
| Returned (a : A)
| Threw (w : World).
Arguments Returned {A} a.
Arguments Threw {A} w.

Section Checked.
Context {libs : Libraries} {checks : Validation}.

(** [$query = $query.m(a)] *)
Definition invoke_checked (m : string) (a : list JSVal) (chain : Chain)
  : Chain :=
  match chain with
  | Running query =>
      if sharp_accepts m a then Running (invoke m a query) else Thrown query
  | Thrown query => Thrown query
  end.

(** [$query = $query.resize(size.width, size.height)]: the arguments are
    read first. *)
Definition resize_checked (size : JSVal) (chain : Chain) : Chain :=
  match chain with
  | Running query =>
      if nullish size then Thrown query
      else invoke_checked "resize" [member size "width"; member size "height"]
             chain
  | Thrown query => Thrown query
  end.

Definition if_then_checked (cond : bool) (assignment : Chain → Chain)
    (chain : Chain) : Chain :=
  if cond then assignment chain else chain.

(** Lines 225 to 343 again, each call now checked by sharp. *)
Definition derive_checked (options : Options) (size : JSVal) (master : Sharp)
  : Chain :=
  let chain :=
    invoke_checked "background" [prop options "background"] (Running master)
  in
  let chain :=
    if_then_checked (strict_equals (prop options "resize") (JBool true))
      (resize_checked size) chain in
  let chain :=
    if_then_checked (negb (strict_equals (prop options "crop") (JBool false))
       && gravity_has (prop options "crop"))
      (invoke_checked "crop" [gravity_get (prop options "crop")]) chain in
  let chain :=
    if_then_checked (strict_equals (prop options "embed") (JBool true))
      (invoke_checked "embed" []) chain in
  let chain :=
    if_then_checked (strict_equals (prop options "max") (JBool true))
      (invoke_checked "max" []) chain in
  let chain :=
    if_then_checked (strict_equals (prop options "min") (JBool true))
      (invoke_checked "min" []) chain in
  let chain :=
    if_then_checked (strict_equals (prop options "withoutEnlargement") (JBool true))
      (invoke_checked "withoutEnlargement" []) chain in
  let chain :=
    if_then_checked (strict_equals (prop options "ignoreAspectRatio") (JBool true))
      (invoke_checked "ignoreAspectRatio" []) chain in
  let chain :=
    if_then_checked (negb (strict_equals (prop options "extract") (JBool false)))
      (invoke_checked "extract" [prop options "extract"]) chain in
  let chain :=
    if_then_checked (negb (strict_equals (prop options "trim") (JBool false)))
      (invoke_checked "trim" [toInteger (prop options "trim")]) chain in
  let chain :=
    if_then_checked (strict_equals (prop options "flatten") (JBool true))
      (invoke_checked "flatten" []) chain in
  let chain :=
    if_then_checked (negb (strict_equals (prop options "extend") (JBool false)))
      (invoke_checked "extend" [prop options "extend"]) chain in
  let chain :=
    if_then_checked (strict_equals (prop options "negate") (JBool true))
      (invoke_checked "negate" []) chain in
  let chain :=
    if_then_checked (includes (JArr [JNum 0; JNum 90; JNum 180; JNum 270])
       (prop options "rotate"))
      (invoke_checked "rotate" [prop options "rotate"]) chain in
  let chain :=
    if_then_checked (strict_equals (prop options "flip") (JBool true))
      (invoke_checked "flip" []) chain in
  let chain :=
    if_then_checked (strict_equals (prop options "flop") (JBool true))
      (invoke_checked "flop" []) chain in
  let chain :=
    if_then_checked (negb (strict_equals (prop options "blur") (JBool false)))
      (if strict_equals (prop options "blur") (JBool true)
       then invoke_checked "blur" []
       else invoke_checked "blur" [toNumber (prop options "blur")]) chain in
  let chain :=
    if_then_checked (strict_equals (prop options "sharpen") (JBool true))
      (invoke_checked "sharpen" []) chain in
  let chain :=
    if_then_checked (negb (strict_equals (prop options "gamma") (JBool false)))
      (if strict_equals (prop options "gamma") (JBool true)
       then invoke_checked "gamma" []
       else invoke_checked "gamma" [toNumber (prop options "gamma")]) chain in
  let chain :=
    if_then_checked (strict_equals (prop options "grayscale") (JBool true)
       || strict_equals (prop options "greyscale") (JBool true))
      (invoke_checked "grayscale" []) chain in
  let chain :=
    if_then_checked (strict_equals (prop options "normalize") (JBool true)
       || strict_equals (prop options "normalise") (JBool true))
      (invoke_checked "normalize" []) chain in
  let chain :=
    if_then_checked (negb (strict_equals (prop options "quality") (JBool false)))
      (invoke_checked "quality" [toInteger (prop options "quality")]) chain in
  let chain :=
    if_then_checked (strict_equals (prop options "progressive") (JBool true))
      (invoke_checked "progressive" []) chain in
  chain.

End Checked.

Section CheckedPipeline.
Context {libs : Libraries} {checks : Validation}.
Variable env : Env.
Variable options : Options.

(** The iteratee: the derivation, then the read of [size.suffix] for the
    path, then [toFile].  [None] stands for a throw; no write has been
    started then. *)
Definition iteratee_checked (state : UploadState) (size : JSVal)
    (s : Sharp * World) : option (option Error * (Sharp * World)) :=
  let '(master, w) := s in
  match derive_checked options size master with
  | Thrown _ => None
  | Running query =>
      if nullish size then None
      else
        let '(err, w') := toFile env query (variant_path options state size) w
        in Some (err, (query, w'))
  end.

(** [async.each] calls the iteratee on the items in order; a throw leaves
    the loop, the later items are never visited.  The boolean tells
    whether every start returned. *)
Fixpoint each_start_checked {A S} (iteratee : A → S → option (option Error * S))
    (coll : list A) (s : S) : list (option Error) * S * bool :=
  match coll with
  | [] => ([], s, true)
  | x :: rest =>
      match iteratee x s with
      | None => ([], s, false)
      | Some (r, s1) =>
          let '(rs, s2, completed) := each_start_checked iteratee rest s1 in
          (r :: rs, s2, completed)
      end
  end.

Definition masterUpload_checked (req : Request) (w : World)
  : Run (Outcome UploadState * World) :=
  if randomstring_returns (prop options "fileNameLen")
  then Returned (masterUpload env options req w)
  else Threw w.

Definition processImages_checked (state : UploadState) (w : World)
  : Run (Outcome UploadState * World) :=
  let master := sharp (destination state +:+ "/" +:+ filename state) in
  match each_start_checked (iteratee_checked state)
          (collection_items (prop options "sizes")) (master, w) with
  | (_, (_, w'), false) => Threw w'
  | (results, (_, w'), true) =>
      match first_error results (finish_order env) with
      | Some err => Returned (Err err, w')
      | None => Returned (Ok state, w')
      end
  end.

(** [async.waterfall] when a task may throw. *)
Fixpoint waterfall_from_checked {A}
    (tasks : list (A → World → Run (Outcome A * World))) (a : A) (w : World)
  : Run (Outcome A * World) :=
  match tasks with
  | [] => Returned (Ok a, w)
  | task :: rest =>
      match task a w with
      | Threw w' => Threw w'
      | Returned (Err e, w') => Returned (Err e, w')
      | Returned (Ok a', w') => waterfall_from_checked rest a' w'
      end
  end.

Definition waterfall_checked {A} (first : World → Run (Outcome A * World))
    (rest : list (A → World → Run (Outcome A * World))) (w : World)
  : Run (Outcome A * World) :=
  match first w with
  | Threw w' => Threw w'
  | Returned (Err e, w') => Returned (Err e, w')
  | Returned (Ok a, w') => waterfall_from_checked rest a w'
  end.

(** The middleware with its exceptions: [Threw] when the invocation ends
    by an uncaught throw, [next] not having been called. *)
Definition middleware_checked (req : Request) (w : World) : Run World :=
  match waterfall_checked (masterUpload_checked req)
          [processImages_checked;
           λ state w', Returned (deleteMaster env state w')] w with
  | Threw w' => Threw w'
  | Returned (result, w') => Returned (waterfallCallback result w')
  end.

(** *** Readings *)

(** Applying operations in order until sharp rejects one. *)
Fixpoint run_calls (ops : list Call) (query : Sharp) : Chain :=
  match ops with
  | [] => Running query
  | c :: rest =>
      if sharp_accepts (method c) (args c)
      then run_calls rest (invoke (method c) (args c) query)
      else Thrown query
  end.

Definition call_accepted (c : Call) : bool :=
  sharp_accepts (method c) (args c).

(** The operations before the first one that sharp rejects. *)
Fixpoint accepted_prefix (ops : list Call) : list Call :=
  match ops with
  | [] => []
  | c :: rest => if call_accepted c then c :: accepted_prefix rest else []
  end.

(** Whether the start of the iteratee on a size returns: the entry can be
    read and sharp accepts every operation of its derivation. *)
Definition iteratee_returns (size : JSVal) : bool :=
  negb (nullish size) && forallb call_accepted (table_operations options size).

(** The sizes that are started: those before the first one whose start
    throws. *)
Fixpoint started (sizes : list JSVal) : list JSVal :=
  match sizes with
  | [] => []
  | size :: rest =>
      if iteratee_returns size then size :: started rest else []
  end.



End CheckedPipeline.

(** ** A concrete world, used to run the model on examples *)

Definition sample_gravity : list (string * JSVal) :=
  [("center", JNum 0); ("centre", JNum 0); ("north", JNum 1);
   ("east", JNum 2); ("south", JNum 3); ("west", JNum 4);
   ("northeast", JNum 5); ("southeast", JNum 6); ("southwest", JNum 7);
   ("northwest", JNum 8)].

Definition sample_mime (type : string) : option string :=
  if String.eqb type "image/png" then Some "png"
  else if String.eqb type "image/jpeg" then Some "jpeg"
  else if String.eqb type "image/gif" then Some "gif"
  else if String.eqb type "application/pdf" then Some "pdf"
  else None.

Fixpoint letters (n : nat) : string :=
  match n with
  | O => ""
  | S n' => String (Ascii.ascii_of_nat 97) (letters n')
  end.

Definition sample_randomstring (seed : Z) (len : JSVal) : string :=
  match len with
  | JNum n => letters (Z.to_nat n)
  | _ => letters 32
  end.

Definition sample_libraries : Libraries.
Proof.
  refine {|
    number_to_string := pretty;
    mime_extension := sample_mime;
    gravity_has v :=
      match v with
      | JStr s => bool_decide (is_Some (assoc s sample_gravity))
      | _ => false
      end;
    gravity_get v :=
      match v with
      | JStr s => default JUndefined (assoc s sample_gravity)
      | _ => JUndefined
      end;
    toInteger v := v;
    toNumber v := v;
    bytes v := v;
    dateformat _ _ := "2017/Mar/4";
    randomstring := sample_randomstring
  |}.
  - intros type ext. unfold sample_mime.
    repeat case_match; intros [= <-]; discriminate.
  - intros seed n _. simpl. generalize (Z.to_nat n). intros k.
    induction k as [|k IH]; simpl; congruence.
Defined.

(** A stand-in for the checks of the two libraries: quality must be an
    integer from 1 to 100, a trim threshold from 1 to 99, and the length of
    a random string must not be [null]. *)
Definition sample_validation : Validation := {|
  sharp_accepts m a :=
    if String.eqb m "quality"
    then match a with [JNum n] => (1 <=? n) && (n <=? 100) | _ => false end
    else if String.eqb m "trim"
    then match a with [JNum n] => (1 <=? n) && (n <=? 99) | _ => false end
    else true;
  randomstring_returns v := match v with JNull => false | _ => true end
|}.

(** Everything succeeds. *)
Definition sample_env : Env := {|
  now := 1488585600;
  random_seed := 7;
  multer_result := None;
  toFile_result _ _ := None;
  finish_order := [];
  unlink_result _ := None
|}.

(** The write of the sm variant fails; everything else succeeds. *)
Definition failing_env : Env := {|
  now := 1488585600;
  random_seed := 7;
  multer_result := None;
  toFile_result _ path :=
    if String.eqb path "/var/www/uploads/2017/Mar/4/aaa.sm.jpg"
    then Some (LibraryError "sharp" "output failed")
    else None;
  finish_order := [1%nat; 0%nat];
  unlink_result _ := None
|}.

Definition size_lg : JSVal :=
  JObj [("suffix", JStr "lg"); ("width", JNum 500); ("height", JNum 500)].

Definition size_sm : JSVal :=
  JObj [("suffix", JStr "sm"); ("width", JNum 100); ("height", JNum 100)].

(** Caller options asking for two sizes and short file names. *)
Definition two_sizes : Options :=
  {[ "sizes" := JArr [size_lg; size_sm]; "fileNameLen" := JNum 3 ]}.

Definition png_request : Request :=
  {| req_file := Some {| mimetype := "image/png" |} |}.



Definition empty_request : Request := {| req_file := None |}.

(** Multer refuses to store the file; nothing else is reached. *)
Definition storage_failing_env : Env := {|
  now := 1488585600;
  random_seed := 7;
  multer_result := Some (LibraryError "multer" "LIMIT_FILE_SIZE");
  toFile_result _ _ := None;
  finish_order := [];
  unlink_result _ := None
|}.

(** Caller options with a quality that sharp rejects, and a later toggle
    that is on. *)
Definition zero_quality : Options :=
  {[ "quality" := JNum 0; "progressive" := JBool true;
     "fileNameLen" := JNum 3 ]}.

(** Caller options asking for no size at all. *)
Definition no_size : Options :=
  {[ "sizes" := JArr []; "fileNameLen" := JNum 3 ]}.


(** The upload state of the sample invocations. *)
Definition sample_state : UploadState := {|
  dir := "2017/Mar/4";
  destination := "/var/www/uploads/2017/Mar/4";
  filename := "aaa"
|}.

(** * Properties *)

(** ** The resolver *)

Lemma assign_union (object source : Options) :
  assign object source = source ∪ object.
Proof.
  unfold assign.
  induction source as [|k v m Hk Hfold IH] using map_first_key_ind.
  - by rewrite map_fold_empty, (left_id_L ∅ (∪)).
  - rewrite map_fold_insert_first_key by done.
    by rewrite IH, insert_union_l.
Qed.

Lemma assign_lookup (object source : Options) (k : string) :
  assign object source !! k =
    match source !! k with
    | Some v => Some v
    | None => object !! k
    end.
Proof.
  rewrite assign_union, lookup_union.
  destruct (source !! k), (object !! k); done.
Qed.

Lemma defaultOptions_documented :
  defaultOptions = list_to_map documented_defaults.
Proof.
  unfold defaultOptions. apply list_to_map_proper.
  - apply (bool_decide_unpack _). vm_compute. exact I.
  - unfold documented_defaults, documented_toggles_off. simpl.
    do 9 apply perm_skip. apply perm_swap.
Qed.

(** C3.  Resolution is a per-key overlay: the resolved value of a key is
    the caller's value when the caller's options have the key, and the
    documented default of that key otherwise.  The value of a key is thus
    a function of the caller's entry for that key alone. *)
Theorem sharper_options_overlay (options : Options) (k : string) :
  sharper_options options !! k =
    match options !! k with
    | Some v => Some v
    | None => (list_to_map documented_defaults : Options) !! k
    end.
Proof.
  unfold sharper_options.
  by rewrite assign_lookup, defaultOptions_documented.
Qed.

(** ** Values *)

Lemma strict_equals_true (v : JSVal) :
  strict_equals v (JBool true) = is_js_true v.
Proof. by destruct v as [| |[]| | | |]. Qed.

Lemma strict_equals_false (v : JSVal) :
  strict_equals v (JBool false) = is_js_false v.
Proof. by destruct v as [| |[]| | | |]. Qed.

Lemma is_js_true_spec (v : JSVal) : is_js_true v = true ↔ v = JBool true.
Proof. destruct v as [| |[]| | | |]; simpl; split; congruence. Qed.

Lemma is_js_true_other (v : JSVal) : v ≠ JBool true → is_js_true v = false.
Proof.
  intros Hv. destruct (is_js_true v) eqn:E; [|done].
  by apply is_js_true_spec in E.
Qed.

Lemma is_js_false_spec (v : JSVal) : is_js_false v = true ↔ v = JBool false.
Proof. destruct v as [| |[]| | | |]; simpl; split; congruence. Qed.



Lemma prop_insert_ne (o : Options) (k k' : string) (v : JSVal) :
  k ≠ k' → prop (<[k := v]> o) k' = prop o k'.
Proof. intros Hne. unfold prop. by rewrite lookup_insert_ne. Qed.

Section Derivation.
Context {libs : Libraries}.

Lemma includes_right_angles (v : JSVal) :
  includes (JArr [JNum 0; JNum 90; JNum 180; JNum 270]) v = right_angle v.
Proof.
  destruct v as [| | b | n | s | fields | items]; try reflexivity.
  unfold includes, right_angle, existsb, strict_equals.
  rewrite orb_false_r.
  destruct (Z.eqb_spec n 0) as [->|]; [done|].
  destruct (Z.eqb_spec n 90) as [->|]; [done|].
  destruct (Z.eqb_spec n 180) as [->|]; [done|].
  destruct (Z.eqb_spec n 270) as [->|]; [done|].
  simpl. symmetry. apply bool_decide_eq_false. set_solver.
Qed.

Lemma invoke_record (m : string) (a : list JSVal) (q : Sharp) :
  invoke m a q = record_calls [{| method := m; args := a |}] q.
Proof. reflexivity. Qed.

Lemma if_then_record (b : bool) (m : string) (a : list JSVal)
    (l : list Call) (q : Sharp) :
  if_then b (invoke m a) (record_calls l q) =
  record_calls (l ++ if b then [{| method := m; args := a |}] else []) q.
Proof.
  unfold if_then, invoke, record_calls. destruct b; simpl.
  - by rewrite app_assoc.
  - by rewrite app_nil_r.
Qed.

Lemma if_invoke (b : bool) (m : string) (a1 a2 : list JSVal) :
  (if b then invoke m a1 else invoke m a2) = invoke m (if b then a1 else a2).
Proof. by destruct b. Qed.

Lemma map_filter_flat_map {A B} (f : A → bool) (g : A → B) (l : list A) :
  map g (List.filter f l) = flat_map (λ x, if f x then [g x] else []) l.
Proof.
  induction l as [|x l IH]; [done|]. simpl.
  destruct (f x); simpl; by rewrite IH.
Qed.

Lemma table_operations_unfold (options : Options) (size : JSVal) :
  table_operations options size =
  flat_map (λ t, if active t options then [operation t options size] else [])
    toggle_table.
Proof. apply map_filter_flat_map. Qed.

Ltac unfold_table :=
  rewrite ?table_operations_unfold;
  unfold toggle_table, flat_map, boolean_toggle, value_toggle, alias_toggle,
    value_or_default, active, operation.

Lemma derive_query_record (options : Options) (size : JSVal)
    (master : Sharp) :
  derive_query options size master =
  record_calls (table_operations options size) master.
Proof.
  unfold derive_query. cbv zeta.
  rewrite !strict_equals_true, !strict_equals_false, includes_right_angles.
  rewrite !if_invoke, invoke_record.
  rewrite !if_then_record. f_equal.
  unfold_table.
  by rewrite app_nil_r, <- !app_assoc.
Qed.

Lemma derive_query_calls (options : Options) (size : JSVal)
    (master : Sharp) :
  calls (derive_query options size master) =
  calls master ++ table_operations options size.
Proof. by rewrite derive_query_record. Qed.

Lemma table_operations_eq (options : Options) (size : JSVal) :
  table_operations options size =
  map (λ t, operation t options size)
      (List.filter (λ t, active t options) toggle_table).
Proof. reflexivity. Qed.

(** *** Calls of one method *)

Lemma calls_of_flat_map (name : string) (options : Options) (size : JSVal)
    (table : list Toggle) :
  calls_of name
    (flat_map (λ t, if active t options then [operation t options size]
                    else []) table) =
  flat_map (λ t, if String.eqb (method (operation t options size)) name
                 then if active t options then [operation t options size]
                      else []
                 else []) table.
Proof.
  unfold calls_of. induction table as [|t table IH]; [done|].
  simpl. rewrite List.filter_app, IH. f_equal.
  destruct (active t options); simpl; [|by case_match].
  by case_match.
Qed.

Lemma calls_method_calls_of (name : string) (l : list Call) :
  calls_method name l =
    match calls_of name l with [] => false | _ :: _ => true end.
Proof.
  unfold calls_method, calls_of.
  induction l as [|c l IH]; [done|]. simpl.
  destruct (String.eqb (method c) name); simpl; [done|apply IH].
Qed.

Lemma calls_of_app (name : string) (l1 l2 : list Call) :
  calls_of name (l1 ++ l2) = calls_of name l1 ++ calls_of name l2.
Proof. apply List.filter_app. Qed.

Ltac calls_of_table :=
  rewrite table_operations_unfold, calls_of_flat_map; cbn;
  rewrite ?app_nil_r.

Lemma fresh_derivation (options : Options) (size : JSVal) (path : string) :
  calls (derive_query options size (sharp path)) =
  table_operations options size.
Proof. by rewrite derive_query_calls. Qed.




Lemma resize_calls (options : Options) (size : JSVal) :
  calls_of "resize" (table_operations options size) =
  if is_js_true (prop options "resize")
  then [{| method := "resize";
           args := [member size "width"; member size "height"] |}]
  else [].
Proof. by calls_of_table. Qed.





(** C9.  Whatever the configuration, a derivation starts by calling
    [background] with the configured value, which defaults to the grey
    [{r: 200, g: 200, b: 200, a: 1}]; no value of the key skips the call,
    whereas every other toggle is skipped under the defaults with [resize]
    turned off. *)
Theorem background_unconditional (options : Options) (size : JSVal)
    (master : Sharp) (path : string) :
  (∃ rest,
     calls (derive_query options size master) =
     calls master ++
     {| method := "background"; args := [prop options "background"] |}
     :: rest) ∧
  prop (sharper_options ∅) "background" =
    JObj [("r", JNum 200); ("g", JNum 200); ("b", JNum 200); ("a", JNum 1)] ∧
  calls (derive_query (<["resize" := JBool false]> (sharper_options ∅)) size
           (sharp path)) =
    [{| method := "background";
        args := [prop (sharper_options ∅) "background"] |}].
Proof.
  split; [|split].
  - rewrite derive_query_calls. unfold_table. eauto.
  - by vm_compute.
  - rewrite fresh_derivation. by vm_compute.
Qed.

End Derivation.

(** ** The pipeline *)

Lemma string_app_cons (c : Ascii.ascii) (s t : string) :
  String c s +:+ t = String c (s +:+ t).
Proof. reflexivity. Qed.

Lemma string_app_nil_r (s : string) : s +:+ "" = s.
Proof. induction s as [|c s IH]; [done|]. by rewrite string_app_cons, IH. Qed.

Lemma string_app_length (s t : string) :
  String.length (s +:+ t) = (String.length s + String.length t)%nat.
Proof.
  induction s as [|c s IH]; [done|].
  rewrite string_app_cons. simpl. by rewrite IH.
Qed.

Lemma string_app_inv_r (s1 s2 t : string) : s1 +:+ t = s2 +:+ t → s1 = s2.
Proof.
  revert s2. induction s1 as [|c1 s1 IH]; intros [|c2 s2] Heq.
  - done.
  - apply (f_equal String.length) in Heq.
    rewrite !string_app_length in Heq. simpl in Heq. lia.
  - apply (f_equal String.length) in Heq.
    rewrite !string_app_length in Heq. simpl in Heq. lia.
  - rewrite !string_app_cons in Heq. injection Heq as -> Heq.
    f_equal. by apply IH.
Qed.

Lemma string_app_ne_l (s t : string) : t ≠ "" → s +:+ t ≠ s.
Proof.
  intros Ht Heq. apply Ht.
  apply (inj (String.app s)). by rewrite string_app_nil_r.
Qed.

Section Pipeline.
Context {libs : Libraries}.
Implicit Types (env : Env) (options : Options) (w : World).
Implicit Types (state : UploadState) (req : Request).

(** *** [async.each] *)

Lemma reported_None (results : list (option Error)) (i : nat) :
  Forall (λ r, r = None) results → reported results i = None.
Proof.
  intros Hall. unfold reported.
  destruct (results !! i) as [[e|]|] eqn:Hi; [|done..].
  by eapply Forall_lookup_1 in Hall; [|done].
Qed.

Lemma first_error_None (results : list (option Error)) (order : list nat) :
  first_error results order = None ↔ Forall (λ r, r = None) results.
Proof.
  unfold first_error. rewrite head_None. split.
  - intros Hnil. apply Forall_lookup_2. intros i [e|] Hi; [|done].
    exfalso.
    assert (e ∈ omap (reported results)
                  (order ++ seq 0%nat (length results))) as Hin.
    { apply list_elem_of_omap. exists i. split.
      - apply elem_of_app. right. apply elem_of_seq.
        apply lookup_lt_Some in Hi. lia.
      - unfold reported. by rewrite Hi. }
    rewrite Hnil in Hin. by apply elem_of_nil in Hin.
  - intros Hall. induction (order ++ seq 0%nat (length results)) as [|i l IH];
      [done|].
    simpl. by rewrite reported_None.
Qed.


(** *** The tasks *)

Lemma each_start_iteratee env options state (sizes : list JSVal)
    (master : Sharp) w :
  ∃ query,
    each_start (iteratee env options state) sizes (master, w) =
    (write_results env (variant_writes options state sizes master),
     (query,
      {| files :=
           written env (variant_writes options state sizes master) ∪ files w;
         trace :=
           trace w ++ write_events (variant_writes options state sizes master)
      |})).
Proof.
  revert master w. induction sizes as [|size sizes IH]; intros master w.
  - exists master. simpl. unfold written. simpl.
    rewrite app_nil_r, (left_id_L ∅ (∪)). by destruct w.
  - simpl. unfold toFile.
    destruct (toFile_result env (derive_query options size master)
                (variant_path options state size)) as [e|] eqn:Hres.
    + destruct (IH (derive_query options size master)
                  (emit (ToFile (variant_path options state size)
                           (derive_query options size master)) w))
        as [query ->].
      exists query. unfold written, write_ok. simpl. rewrite Hres. simpl.
      by rewrite <- app_assoc.
    + destruct (IH (derive_query options size master)
                  (write_file (variant_path options state size)
                     (emit (ToFile (variant_path options state size)
                              (derive_query options size master)) w)))
        as [query ->].
      exists query. unfold written, write_ok. simpl. rewrite Hres. simpl.
      rewrite <- app_assoc. do 3 f_equal. set_solver.
Qed.

Lemma processImages_eq env options state w :
  processImages env options state w =
  let ws :=
    variant_writes options state (collection_items (prop options "sizes"))
      (sharp (destination state +:+ "/" +:+ filename state)) in
  (match first_error (write_results env ws) (finish_order env) with
   | Some e => Err e
   | None => Ok state
   end,
   {| files := written env ws ∪ files w;
      trace := trace w ++ write_events ws |}).
Proof.
  unfold processImages, each.
  destruct (each_start_iteratee env options state
              (collection_items (prop options "sizes"))
              (sharp (destination state +:+ "/" +:+ filename state)) w)
    as [query ->].
  simpl. by destruct (first_error _ _).
Qed.

Lemma tasks_eq env options req w :
  tasks env options req w =
  match masterUpload env options req w with
  | (Err e, w1) => (Err e, w1)
  | (Ok state, w1) =>
      match processImages env options state w1 with
      | (Err e, w2) => (Err e, w2)
      | (Ok state', w2) => deleteMaster env state' w2
      end
  end.
Proof.
  unfold tasks, waterfall.
  destruct (masterUpload env options req w) as [[e|state] w1]; [done|].
  simpl.
  destruct (processImages env options state w1) as [[e|state'] w2]; [done|].
  by destruct (deleteMaster env state' w2) as [[e|state''] w3].
Qed.

Lemma masterUpload_trace env options req w :
  ∃ config,
    trace (masterUpload env options req w).2 = trace w ++ [Multer config].
Proof.
  eexists. unfold masterUpload, masterUploader.
  destruct (req_file req) as [file|]; [|reflexivity].
  destruct (fileFilter options file); [reflexivity|].
  destruct (multer_result env); reflexivity.
Qed.

Lemma written_all_ok env (ws : list (string * Sharp)) :
  Forall (λ r, r = None) (write_results env ws) →
  written env ws = list_to_set (map fst ws).
Proof.
  intros Hall. unfold written. f_equal. f_equal.
  induction ws as [|pq ws IH]; [done|].
  apply Forall_cons in Hall as [Hpq Hall]. simpl.
  unfold write_ok at 1. rewrite Hpq. f_equal. by apply IH.
Qed.

Lemma write_events_not_Next (ws : list (string * Sharp)) :
  Forall (λ e, is_Next e = false) (write_events ws).
Proof. unfold write_events. apply Forall_fmap. by apply Forall_true. Qed.

(** The four ways an invocation can go. *)
Lemma middleware_cases env options req w :
  ∃ config,
    let r := masterUpload env options req w in
    (∃ e, r.1 = Err e ∧
       middleware env options req w = emit (Next (Some e)) r.2 ∧
       trace (middleware env options req w) =
       trace w ++ [Multer config; Next (Some e)]) ∨
    (∃ state, r.1 = Ok state ∧
       let master := destination state +:+ "/" +:+ filename state in
       let ws :=
         variant_writes options state
           (collection_items (prop options "sizes")) (sharp master) in
       (∃ e, first_error (write_results env ws) (finish_order env) = Some e ∧
          trace (middleware env options req w) =
          trace w ++ Multer config :: write_events ws ++ [Next (Some e)]) ∨
       (Forall (λ r, r = None) (write_results env ws) ∧
        ∃ e, unlink_result env master = Some e ∧
          trace (middleware env options req w) =
          trace w ++ Multer config :: write_events ws ++
          [Cache false; Unlink master; Next (Some e)]) ∨
       (Forall (λ r, r = None) (write_results env ws) ∧
        unlink_result env master = None ∧
        files (middleware env options req w) =
          (list_to_set (map fst ws) ∪ files r.2) ∖ {[master]} ∧
        trace (middleware env options req w) =
          trace w ++ Multer config :: write_events ws ++
          [Cache false; Unlink master; SetSharper state; Next None])).
Proof.
  destruct (masterUpload_trace env options req w) as [config Htrace].
  exists config. unfold middleware. rewrite tasks_eq.
  destruct (masterUpload env options req w) as [[e|state] w1];
    simpl in Htrace |- *.
  { left. exists e. split; [done|]. split; [done|].
    by rewrite Htrace, <- app_assoc. }
  right. exists state. split; [done|].
  rewrite processImages_eq. cbv zeta.
  destruct (first_error _ _) as [e|] eqn:Hfirst.
  { left. exists e. split; [done|]. simpl.
    rewrite Htrace, <- !app_assoc. reflexivity. }
  right. apply first_error_None in Hfirst.
  unfold deleteMaster. cbv zeta. simpl.
  destruct (unlink_result env _) as [e|] eqn:Hunlink.
  - left. split; [done|]. exists e. split; [done|]. simpl.
    rewrite Htrace, <- !app_assoc. reflexivity.
  - right. split; [done|]. split; [done|]. simpl. split.
    + by rewrite written_all_ok.
    + rewrite Htrace, <- !app_assoc. reflexivity.
Qed.



Lemma last_call_resize options (size : JSVal) (before : list Call) :
  prop options "resize" = JBool true →
  last_call "resize" (before ++ table_operations options size) =
  Some {| method := "resize";
          args := [member size "width"; member size "height"] |}.
Proof.
  intros Hresize. unfold last_call.
  rewrite calls_of_app, resize_calls, Hresize. simpl.
  apply last_snoc.
Qed.

Lemma variant_path_master options state (size : JSVal) :
  variant_path options state size ≠
  destination state +:+ "/" +:+ filename state.
Proof.
  unfold variant_path. intros Heq.
  apply (inj (String.app _)) in Heq. apply (inj (String.app _)) in Heq.
  by apply string_app_ne_l in Heq.
Qed.

Lemma variant_path_inj options state (s1 s2 : JSVal) (a b : string) :
  member s1 "suffix" = JStr a → member s2 "suffix" = JStr b →
  variant_path options state s1 = variant_path options state s2 → a = b.
Proof.
  unfold variant_path. intros -> -> Heq. simpl in Heq.
  do 4 apply (inj (String.app _)) in Heq.
  by apply string_app_inv_r in Heq.
Qed.

(** C1, as amended.  With two sizes of distinct suffixes, a successful
    invocation writes both variants, at distinct paths.  Both derivations
    are chained on the one master instance: the first write sees the
    operations of the first entry, the second write sees those followed by
    the operations of the second entry.  When resize is on, the resize in
    force at each write is the one of that write's own entry. *)
Theorem two_sizes_share_master env options req w (s1 s2 : JSVal)
    (a b : string) :
  collection_items (prop options "sizes") = [s1; s2] →
  member s1 "suffix" = JStr a →
  member s2 "suffix" = JStr b →
  a ≠ b →
  last (trace (middleware env options req w)) = Some (Next None) →
  ∃ state,
    let master := sharp (destination state +:+ "/" +:+ filename state) in
    let p1 := variant_path options state s1 in
    let p2 := variant_path options state s2 in
    let q1 := derive_query options s1 master in
    let q2 := derive_query options s2 q1 in
    (masterUpload env options req w).1 = Ok state ∧
    p1 ≠ p2 ∧
    p1 ∈ files (middleware env options req w) ∧
    p2 ∈ files (middleware env options req w) ∧
    (∃ pre post,
       trace (middleware env options req w) =
       pre ++ ToFile p1 q1 :: ToFile p2 q2 :: post) ∧
    calls q1 = table_operations options s1 ∧
    calls q2 = table_operations options s1 ++ table_operations options s2 ∧
    (prop options "resize" = JBool true →
     last_call "resize" (calls q1) =
       Some {| method := "resize";
               args := [member s1 "width"; member s1 "height"] |} ∧
     last_call "resize" (calls q2) =
       Some {| method := "resize";
               args := [member s2 "width"; member s2 "height"] |}).
Proof.
  intros Hsizes Ha Hb Hab Hlast.
  destruct (middleware_cases env options req w) as [config Hcases].
  cbv zeta in Hcases. rewrite Hsizes in Hcases.
  destruct Hcases as [(e & _ & _ & Htrace)|(state & Hup & Hrest)].
  { rewrite Htrace, last_app in Hlast. simpl in Hlast. congruence. }
  destruct Hrest as [(e & _ & Htrace)|[(_ & e & _ & Htrace)|
    (Hall & Hun & Hfiles & Htrace)]].
  { rewrite Htrace, last_app in Hlast. simpl in Hlast. congruence. }
  { rewrite Htrace, last_app in Hlast. simpl in Hlast. congruence. }
  exists state. cbv zeta. simpl in Hfiles, Htrace.
  pose proof (variant_path_master options state s1) as Hm1.
  pose proof (variant_path_master options state s2) as Hm2.
  split; [done|]. split.
  { intros Heq. apply Hab. by eapply variant_path_inj. }
  split; [rewrite Hfiles; set_solver|].
  split; [rewrite Hfiles; set_solver|].
  split.
  { rewrite Htrace. eexists (trace w ++ [Multer config]), _.
    rewrite <- app_assoc. reflexivity. }
  split; [apply fresh_derivation|].
  split.
  { by rewrite derive_query_calls, fresh_derivation. }
  intros Hresize. split.
  - rewrite fresh_derivation, <- (app_nil_l (table_operations options s1)).
    by apply last_call_resize.
  - rewrite derive_query_calls. by apply last_call_resize.
Qed.

End Pipeline.

(** * Further properties *)

(** ** The error object *)

(** X1.  An error built by [Serror] always has the name "Error" and a
    truthy message; its code and its field are the given value when that
    is truthy and [null] otherwise, so never [undefined], [false], 0 or
    the empty string. *)
Theorem Serror_fields (m c f : JSVal) :
  name (Serror m c f) = "Error" ∧
  truthy (message (Serror m c f)) = true ∧
  message (Serror m c f) = (if truthy m then m else JStr "error occurred.") ∧
  code (Serror m c f) = (if truthy c then c else JNull) ∧
  field (Serror m c f) = (if truthy f then f else JNull) ∧
  (code (Serror m c f) = JNull ∨ truthy (code (Serror m c f)) = true) ∧
  (field (Serror m c f) = JNull ∨ truthy (field (Serror m c f)) = true).
Proof.
  unfold Serror, js_or. simpl.
  split; [done|]. split; [by destruct (truthy m) eqn:E|].
  split; [done|]. split; [done|]. split; [done|].
  split.
  - destruct (truthy c) eqn:E; auto.
  - destruct (truthy f) eqn:E; auto.
Qed.

(** ** The resolver *)

(** X14.  The resolved configuration has exactly the caller's keys and the
    default keys: no default can be removed and no caller key is dropped. *)
Theorem sharper_options_dom (options : Options) :
  dom (sharper_options options) = dom options ∪ dom defaultOptions.
Proof.
  unfold sharper_options. by rewrite assign_union, dom_union_L.
Qed.

(** X15.  Overriding one more key in the caller's options changes the
    resolved configuration at that key only. *)
Theorem sharper_options_insert (options : Options) (k : string) (v : JSVal) :
  sharper_options (<[k := v]> options) = <[k := v]> (sharper_options options).
Proof.
  unfold sharper_options. by rewrite !assign_union, insert_union_l.
Qed.

(** ** One derivation *)

Section DerivationMore.
Context {libs : Libraries}.

Ltac unfold_table :=
  rewrite ?table_operations_unfold;
  unfold toggle_table, flat_map, boolean_toggle, value_toggle, alias_toggle,
    value_or_default, active, operation.

Ltac calls_of_table :=
  rewrite table_operations_unfold, calls_of_flat_map; cbn;
  rewrite ?app_nil_r.

Lemma NoDup_map_filter {A B} `{EqDecision B} (g : A → B) (f : A → bool)
    (l : list A) :
  NoDup (map g l) → NoDup (map g (List.filter f l)).
Proof.
  induction l as [|x l IH]; [done|]. simpl.
  intros [Hx Hl]%NoDup_cons. destruct (f x); simpl; [|by apply IH].
  apply NoDup_cons. split; [|by apply IH].
  intros Hin. apply Hx.
  apply list_elem_of_fmap in Hin as (y & -> & Hy).
  apply list_elem_of_fmap. exists y. split; [done|].
  apply list_elem_of_In. apply list_elem_of_In in Hy.
  by apply List.filter_In in Hy as [Hy _].
Qed.

(** X9.  A derivation calls each method of the instance at most once, and
    makes between one and twenty-three calls. *)
Theorem derive_query_no_repeat (options : Options) (size : JSVal)
    (path : string) :
  NoDup (map method (calls (derive_query options size (sharp path)))) ∧
  (1 ≤ length (calls (derive_query options size (sharp path))) ≤ 23)%nat.
Proof.
  rewrite fresh_derivation. split.
  - rewrite table_operations_eq, map_map.
    apply NoDup_map_filter.
    apply (bool_decide_unpack _). by vm_compute.
  - split.
    + unfold_table. rewrite length_app. simpl. lia.
    + rewrite table_operations_eq, length_map.
      etrans; [apply List.filter_length_le|]. reflexivity.
Qed.


(** X11.  Unless [resize] is [true], the derivation does not depend on the
    size entry at all: every variant is derived alike. *)
Theorem derive_query_without_resize (options : Options) (s1 s2 : JSVal)
    (master : Sharp) :
  prop options "resize" ≠ JBool true →
  derive_query options s1 master = derive_query options s2 master.
Proof.
  intros Hr%is_js_true_other. rewrite !derive_query_record. f_equal.
  unfold_table. by rewrite Hr.
Qed.

(** X12.  The derivation reads the toggle keys only: setting any other
    key, such as [output], [sizes] or [location], leaves it unchanged. *)
Theorem derive_query_other_keys (options : Options) (k : string) (v : JSVal)
    (size : JSVal) (master : Sharp) :
  k ∉ toggle_keys →
  derive_query (<[k := v]> options) size master =
  derive_query options size master.
Proof.
  intros Hk.
  assert (∀ k', k' ∈ toggle_keys → k ≠ k') as Hne.
  { intros k' Hk' ->. by apply Hk. }
  rewrite !derive_query_record. f_equal. unfold_table.
  rewrite !prop_insert_ne
    by (apply Hne; apply (bool_decide_unpack _); by vm_compute).
  reflexivity.
Qed.

(** In a derivation in which every call returns, a value-gated toggle
    fires for every value other than the boolean [false]. *)
Theorem value_toggles_fire (t : string) (options : Options) (size : JSVal)
    (path : string) :
  t ∈ value_toggles →
  (calls_method t (calls (derive_query options size (sharp path))) = true ↔
   prop options t ≠ JBool false).
Proof.
  intros Ht. rewrite fresh_derivation, calls_method_calls_of.
  rewrite <- is_js_false_spec.
  unfold value_toggles in Ht.
  repeat (apply elem_of_cons in Ht as [->|Ht]);
    [calls_of_table; destruct (is_js_false _); simpl; split; congruence ..|].
  by apply elem_of_nil in Ht.
Qed.

End DerivationMore.

(** ** The pipeline, case by case *)

Section PipelineMore.
Context {libs : Libraries}.
Implicit Types (env : Env) (options : Options) (w : World).
Implicit Types (state : UploadState) (req : Request).

Lemma masterUpload_eq env options req w :
  masterUpload env options req w =
  let state := upload_state env options in
  let w0 := emit (Multer (upload_config env options)) w in
  match req_file req with
  | None => (Ok state, w0)
  | Some file =>
      match fileFilter options file with
      | Some e => (Err e, w0)
      | None =>
          match multer_result env with
          | Some e => (Err e, w0)
          | None =>
              (Ok state,
               write_file (destination state +:+ "/" +:+ filename state) w0)
          end
      end
  end.
Proof.
  unfold masterUpload, masterUploader. cbv zeta.
  destruct (req_file req) as [file|]; [|done].
  destruct (fileFilter options file); [done|].
  by destruct (multer_result env).
Qed.

Lemma masterUpload_Ok env options req w state :
  (masterUpload env options req w).1 = Ok state →
  state = upload_state env options.
Proof.
  rewrite masterUpload_eq. cbv zeta.
  destruct (req_file req) as [file|]; [|by intros [= <-]].
  destruct (fileFilter options file); [done|].
  destruct (multer_result env); [done|by intros [= <-]].
Qed.

Lemma middleware_upload_failed env options req w (e : Error) (w1 : World) :
  masterUpload env options req w = (Err e, w1) →
  middleware env options req w = emit (Next (Some e)) w1.
Proof. intros Hup. unfold middleware. by rewrite tasks_eq, Hup. Qed.

Lemma middleware_after_upload env options req w state (w1 : World) :
  masterUpload env options req w = (Ok state, w1) →
  middleware env options req w =
  let master := destination state +:+ "/" +:+ filename state in
  let ws :=
    variant_writes options state (collection_items (prop options "sizes"))
      (sharp master) in
  let w2 := {| files := written env ws ∪ files w1;
               trace := trace w1 ++ write_events ws |} in
  match first_error (write_results env ws) (finish_order env) with
  | Some e => emit (Next (Some e)) w2
  | None =>
      match unlink_result env master with
      | Some e =>
          emit (Next (Some e)) (emit (Unlink master) (emit (Cache false) w2))
      | None =>
          emit (Next None)
            (emit (SetSharper state)
               (remove_file master
                  (emit (Unlink master) (emit (Cache false) w2))))
      end
  end.
Proof.
  intros Hup. unfold middleware. rewrite tasks_eq, Hup, processImages_eq.
  cbv zeta. destruct (first_error _ _) as [e|]; [done|].
  unfold deleteMaster. cbv zeta.
  by destruct (unlink_result env _).
Qed.

Lemma variant_writes_paths options state (sizes : list JSVal)
    (master : Sharp) :
  map fst (variant_writes options state sizes master) =
  map (variant_path options state) sizes.
Proof.
  revert master. induction sizes as [|size sizes IH]; intros master; [done|].
  simpl. by rewrite IH.
Qed.

Lemma record_calls_record_calls (l1 l2 : list Call) (q : Sharp) :
  record_calls l2 (record_calls l1 q) = record_calls (l1 ++ l2) q.
Proof. unfold record_calls. simpl. by rewrite app_assoc. Qed.

Lemma variant_writes_cons options state (s : JSVal) (sizes : list JSVal)
    (master : Sharp) :
  variant_writes options state (s :: sizes) master =
  (variant_path options state s,
   record_calls (table_operations options s) master)
  :: variant_writes options state sizes
       (record_calls (table_operations options s) master).
Proof. cbn [variant_writes]. by rewrite derive_query_record. Qed.

Lemma variant_writes_lookup options state (sizes : list JSVal)
    (master : Sharp) (i : nat) (size : JSVal) :
  sizes !! i = Some size →
  variant_writes options state sizes master !! i =
  Some (variant_path options state size,
        record_calls
          (concat (map (table_operations options) (take (S i) sizes)))
          master).
Proof.
  revert master i. induction sizes as [|s sizes IH]; intros master i Hi;
    [done|].
  rewrite variant_writes_cons.
  set (ops := table_operations options) in *. clearbody ops.
  destruct i as [|i]; simpl in *.
  - injection Hi as ->. by rewrite ?take_0, ?app_nil_r.
  - by rewrite (IH _ _ Hi), record_calls_record_calls.
Qed.



Lemma fileFilter_accepts options (file : File) (ext : string) :
  mime_extension (mimetype file) = Some ext →
  includes (prop options "accept") (JStr ext) = true →
  fileFilter options file = None.
Proof. intros Hext Hacc. unfold fileFilter. by rewrite Hext, Hacc. Qed.

(** The returning run in full.  When the type is accepted, the master is
    stored, every write succeeds and the unlink succeeds, an invocation in
    which nothing throws uploads, starts every
    size, disables the cache, unlinks the master and hands the state to
    the next middleware; afterwards the master is gone, every variant is
    there, and no other file present before has been removed. *)
Theorem successful_run env options req w (file : File) (ext : string) :
  req_file req = Some file →
  mime_extension (mimetype file) = Some ext →
  includes (prop options "accept") (JStr ext) = true →
  multer_result env = None →
  Forall (λ r, r = None)
    (write_results env
       (variant_writes options (upload_state env options)
          (collection_items (prop options "sizes"))
          (sharp (destination (upload_state env options) +:+ "/" +:+
                  filename (upload_state env options))))) →
  unlink_result env
    (destination (upload_state env options) +:+ "/" +:+
     filename (upload_state env options)) = None →
  let state := upload_state env options in
  let master := destination state +:+ "/" +:+ filename state in
  let sizes := collection_items (prop options "sizes") in
  trace (middleware env options req w) =
    trace w ++
    Multer (upload_config env options)
    :: write_events (variant_writes options state sizes (sharp master)) ++
    [Cache false; Unlink master; SetSharper state; Next None] ∧
  (master ∉ files (middleware env options req w)) ∧
  (∀ size, size ∈ sizes →
     variant_path options state size ∈ files (middleware env options req w)) ∧
  (∀ p, p ∈ files w → p ≠ master →
     p ∈ files (middleware env options req w)).
Proof.
  intros Hfile Hext Hacc Hmulter Hall Hunlink. cbv zeta.
  pose proof (masterUpload_eq env options req w) as Hup. cbv zeta in Hup.
  rewrite Hfile, (fileFilter_accepts _ _ _ Hext Hacc), Hmulter in Hup.
  rewrite (middleware_after_upload _ _ _ _ _ _ Hup). cbv zeta.
  pose proof (proj2 (first_error_None _ (finish_order env)) Hall) as Hfirst.
  rewrite Hfirst, Hunlink, (written_all_ok _ _ Hall), variant_writes_paths.
  set (state := upload_state env options) in *. clearbody state.
  simpl.
  split; [by rewrite <- !app_assoc|].
  split; [set_solver|]. split.
  - intros size Hsize.
    pose proof (variant_path_master options state size).
    apply elem_of_difference. split; [|set_solver].
    apply elem_of_union. left. apply elem_of_list_to_set.
    apply list_elem_of_fmap. eauto.
  - intros p Hp Hne. set_solver.
Qed.


(** X5.  When the filter accepts the file but multer fails to store it (a
    limit, an input or output error), that very error goes to [next];
    no size is started and nothing is written. *)
Theorem storage_error_passed_on env options req w (file : File)
    (e : Error) :
  req_file req = Some file →
  fileFilter options file = None →
  multer_result env = Some e →
  trace (middleware env options req w) =
    trace w ++ [Multer (upload_config env options); Next (Some e)] ∧
  files (middleware env options req w) = files w.
Proof.
  intros Hfile Hfilter Hmulter.
  pose proof (masterUpload_eq env options req w) as Hup. cbv zeta in Hup.
  rewrite Hfile, Hfilter, Hmulter in Hup.
  rewrite (middleware_upload_failed _ _ _ _ _ _ Hup). simpl.
  split; [by rewrite <- app_assoc|done].
Qed.

(** A request that carries no file yields no error, so the state is passed
    on and nothing is stored; when nothing throws, every size is then
    started. *)
Theorem no_file_request env options req w :
  req_file req = None →
  masterUpload env options req w =
    (Ok (upload_state env options),
     emit (Multer (upload_config env options)) w) ∧
  ∃ rest,
    trace (middleware env options req w) =
    trace w ++
    Multer (upload_config env options)
    :: write_events
         (variant_writes options (upload_state env options)
            (collection_items (prop options "sizes"))
            (sharp (destination (upload_state env options) +:+ "/" +:+
                    filename (upload_state env options)))) ++ rest.
Proof.
  intros Hfile.
  pose proof (masterUpload_eq env options req w) as Hup. cbv zeta in Hup.
  rewrite Hfile in Hup. split; [done|].
  rewrite (middleware_after_upload _ _ _ _ _ _ Hup). cbv zeta.
  destruct (first_error _ _) as [e|]; [|destruct (unlink_result env _)];
    simpl; eexists; rewrite <- !app_assoc; simpl; reflexivity.
Qed.


(** X6.  With no size to derive (an empty list, or a value that holds no
    items), a successful upload is followed at once by the cleanup: no
    write is started, the master is unlinked, and the outcome is that of
    the unlink. *)
Theorem no_sizes env options req w state :
  collection_items (prop options "sizes") = [] →
  (masterUpload env options req w).1 = Ok state →
  let master := destination state +:+ "/" +:+ filename state in
  trace (middleware env options req w) =
    trace w ++
    [Multer (upload_config env options); Cache false; Unlink master] ++
    match unlink_result env master with
    | Some e => [Next (Some e)]
    | None => [SetSharper state; Next None]
    end.
Proof.
  intros Hsizes Hup. cbv zeta.
  assert (trace (masterUpload env options req w).2 =
          trace w ++ [Multer (upload_config env options)]) as Htrace.
  { rewrite masterUpload_eq. cbv zeta.
    destruct (req_file req); [|done].
    destruct (fileFilter options _); [done|].
    by destruct (multer_result env). }
  destruct (masterUpload env options req w) as [r w1] eqn:Heq.
  simpl in Hup, Htrace. subst r.
  rewrite (middleware_after_upload _ _ _ _ _ _ Heq), Hsizes. cbv zeta.
  simpl.
  assert (first_error [] (finish_order env) = None) as ->
    by (by apply first_error_None).
  destruct (unlink_result env _); simpl;
    rewrite Htrace, app_nil_r, <- !app_assoc; reflexivity.
Qed.

(** X7.  Two size entries are written to the same path exactly when their
    suffixes read the same as strings; width and height play no part in
    the path. *)
Theorem variant_path_collision options state (s1 s2 : JSVal) :
  variant_path options state s1 = variant_path options state s2 ↔
  js_to_string (member s1 "suffix") = js_to_string (member s2 "suffix").
Proof.
  unfold variant_path. split.
  - intros Heq. do 4 apply (inj (String.app _)) in Heq.
    by apply string_app_inv_r in Heq.
  - by intros ->.
Qed.

(** X8.  The write started for the entry at position [i] goes to the path
    of that entry, which is never the master itself, and sees the master
    instance with the operations of the entries 0 to [i], in that order. *)
Theorem kth_write env options state w (i : nat) (size : JSVal) :
  collection_items (prop options "sizes") !! i = Some size →
  drop (length (trace w)) (trace (processImages env options state w).2) !! i =
    Some (ToFile (variant_path options state size)
            {| input := destination state +:+ "/" +:+ filename state;
               calls :=
                 concat (map (table_operations options)
                           (take (S i)
                              (collection_items (prop options "sizes")))) |}) ∧
  variant_path options state size ≠
    destination state +:+ "/" +:+ filename state.
Proof.
  intros Hi. split; [|apply variant_path_master].
  rewrite processImages_eq. cbv zeta. simpl.
  rewrite drop_app_length. unfold write_events.
  rewrite list_lookup_fmap, (variant_writes_lookup _ _ _ _ _ _ Hi).
  reflexivity.
Qed.



End PipelineMore.

(** * Properties in the presence of exceptions *)

Section CheckedDerivation.
Context {libs : Libraries} {checks : Validation}.

Ltac unfold_table :=
  rewrite ?table_operations_unfold;
  unfold toggle_table, flat_map, boolean_toggle, value_toggle, alias_toggle,
    value_or_default, active, operation.

Lemma run_calls_app (l1 l2 : list Call) (q : Sharp) :
  run_calls (l1 ++ l2) q =
  match run_calls l1 q with
  | Running q' => run_calls l2 q'
  | Thrown q' => Thrown q'
  end.
Proof.
  revert q. induction l1 as [|c l1 IH]; intros q; [done|].
  simpl. by destruct (sharp_accepts _ _).
Qed.

Lemma if_then_checked_run (b : bool) (m : string) (a : list JSVal)
    (l : list Call) (q : Sharp) :
  if_then_checked b (invoke_checked m a) (run_calls l q) =
  run_calls (l ++ if b then [{| method := m; args := a |}] else []) q.
Proof.
  rewrite run_calls_app. unfold if_then_checked.
  destruct b; by destruct (run_calls l q).
Qed.

Lemma if_then_resize (b : bool) (size : JSVal) (chain : Chain) :
  nullish size = false →
  if_then_checked b (resize_checked size) chain =
  if_then_checked b
    (invoke_checked "resize" [member size "width"; member size "height"])
    chain.
Proof.
  intros Hsize. unfold if_then_checked, resize_checked.
  destruct b, chain; by rewrite ?Hsize.
Qed.

Lemma if_invoke_checked (b : bool) (m : string) (a1 a2 : list JSVal) :
  (if b then invoke_checked m a1 else invoke_checked m a2) =
  invoke_checked m (if b then a1 else a2).
Proof. by destruct b. Qed.

Lemma derive_checked_run (options : Options) (size : JSVal) (master : Sharp) :
  nullish size = false →
  derive_checked options size master =
  run_calls (table_operations options size) master.
Proof.
  intros Hsize. unfold derive_checked. cbv zeta.
  rewrite (if_then_resize _ _ _ Hsize).
  rewrite !strict_equals_true, !strict_equals_false, includes_right_angles.
  rewrite !if_invoke_checked.
  change (invoke_checked "background" [prop options "background"]
            (Running master))
    with (run_calls [{| method := "background";
                        args := [prop options "background"] |}] master).
  rewrite !if_then_checked_run. f_equal.
  unfold_table.
  by rewrite app_nil_r, <- !app_assoc.
Qed.

Lemma run_calls_eq (ops : list Call) (q : Sharp) :
  run_calls ops q =
  if forallb call_accepted ops
  then Running (record_calls ops q)
  else Thrown (record_calls (accepted_prefix ops) q).
Proof.
  revert q. induction ops as [|[m a] ops IH]; intros [i cs].
  - unfold record_calls. simpl. by rewrite app_nil_r.
  - simpl. unfold call_accepted at 1 3. simpl.
    destruct (sharp_accepts m a); simpl.
    + rewrite IH. unfold record_calls, invoke. simpl.
      by rewrite <- !app_assoc.
    + unfold record_calls. simpl. by rewrite app_nil_r.
Qed.

(** C2, as amended.  The toggles are those of the claim, in its order.
    For a size entry that can be read, a derivation makes the calls of the
    toggles that are not skipped, in that order, for as long as sharp
    accepts them: all of them when none is rejected, and otherwise those
    before the first rejected one, the throw ending the chain. *)
Theorem derive_checked_fixed_order (options : Options) (size : JSVal)
    (master : Sharp) :
  nullish size = false →
  map toggle toggle_table =
    ["background"; "resize"; "crop"; "embed"; "max"; "min";
     "withoutEnlargement"; "ignoreAspectRatio"; "extract"; "trim";
     "flatten"; "extend"; "negate"; "rotate"; "flip"; "flop"; "blur";
     "sharpen"; "gamma"; "grayscale"; "normalize"; "quality";
     "progressive"] ∧
  derive_checked options size master =
    if forallb call_accepted
         (map (λ t, operation t options size)
              (List.filter (λ t, active t options) toggle_table))
    then Running
           {| input := input master;
              calls :=
                calls master ++
                map (λ t, operation t options size)
                    (List.filter (λ t, active t options) toggle_table) |}
    else Thrown
           {| input := input master;
              calls :=
                calls master ++
                accepted_prefix
                  (map (λ t, operation t options size)
                       (List.filter (λ t, active t options) toggle_table)) |}.
Proof.
  intros Hsize. split; [reflexivity|].
  rewrite <- !table_operations_eq.
  by rewrite (derive_checked_run _ _ _ Hsize), run_calls_eq.
Qed.

End CheckedDerivation.

Section CheckedPipelineFacts.
Context {libs : Libraries} {checks : Validation}.
Implicit Types (env : Env) (options : Options) (w : World).
Implicit Types (state : UploadState) (req : Request).

Lemma iteratee_checked_eq env options state (size : JSVal) (master : Sharp)
    w :
  iteratee_checked env options state size (master, w) =
  if iteratee_returns options size
  then Some (iteratee env options state size (master, w))
  else None.
Proof.
  unfold iteratee_checked, iteratee_returns, iteratee.
  cbv beta iota zeta.
  destruct (nullish size) eqn:Hsize; cbn [negb andb].
  { destruct (derive_checked options size master); reflexivity. }
  rewrite (derive_checked_run _ _ _ Hsize), run_calls_eq.
  destruct (forallb _ _); [|reflexivity].
  rewrite derive_query_record.
  destruct (toFile _ _ _ _); reflexivity.
Qed.

Lemma each_start_checked_eq env options state (sizes : list JSVal)
    (master : Sharp) w :
  each_start_checked (iteratee_checked env options state) sizes (master, w) =
  (each_start (iteratee env options state) (started options sizes)
     (master, w),
   forallb (iteratee_returns options) sizes).
Proof.
  revert master w. induction sizes as [|size sizes IH]; intros master w;
    [done|].
  cbn [each_start_checked started forallb].
  rewrite iteratee_checked_eq.
  destruct (iteratee_returns options size); [|done].
  cbn [each_start andb].
  destruct (iteratee env options state size (master, w)) as [r [q w1]].
  rewrite IH.
  by destruct (each_start _ _ _) as [rs s2].
Qed.

Lemma started_all options (sizes : list JSVal) :
  forallb (iteratee_returns options) sizes = true →
  started options sizes = sizes.
Proof.
  induction sizes as [|size sizes IH]; [done|]. simpl.
  intros [-> Hrest]%andb_true_iff. by rewrite IH.
Qed.

Lemma processImages_checked_eq env options state w :
  processImages_checked env options state w =
  if forallb (iteratee_returns options)
       (collection_items (prop options "sizes"))
  then Returned (processImages env options state w)
  else
    let ws :=
      variant_writes options state
        (started options (collection_items (prop options "sizes")))
        (sharp (destination state +:+ "/" +:+ filename state)) in
    Threw {| files := written env ws ∪ files w;
             trace := trace w ++ write_events ws |}.
Proof.
  unfold processImages_checked, processImages, each.
  rewrite each_start_checked_eq.
  destruct (forallb _ _) eqn:Hall.
  - rewrite (started_all _ _ Hall).
    destruct (each_start _ _ _) as [rs [q w']].
    by destruct (first_error _ _).
  - destruct (each_start_iteratee env options state
                (started options (collection_items (prop options "sizes")))
                (sharp (destination state +:+ "/" +:+ filename state)) w)
      as [query ->].
    reflexivity.
Qed.

Lemma middleware_checked_eq env options req w :
  middleware_checked env options req w =
  if randomstring_returns (prop options "fileNameLen")
  then
    match masterUpload env options req w with
    | (Err _, _) => Returned (middleware env options req w)
    | (Ok state, w1) =>
        if forallb (iteratee_returns options)
             (collection_items (prop options "sizes"))
        then Returned (middleware env options req w)
        else
          let ws :=
            variant_writes options state
              (started options (collection_items (prop options "sizes")))
              (sharp (destination state +:+ "/" +:+ filename state)) in
          Threw {| files := written env ws ∪ files w1;
                   trace := trace w1 ++ write_events ws |}
    end
  else Threw w.
Proof.
  unfold middleware_checked, waterfall_checked, masterUpload_checked.
  destruct (randomstring_returns _); [|done].
  unfold middleware. rewrite tasks_eq.
  destruct (masterUpload env options req w) as [[e|state] w1]; [done|].
  cbn [waterfall_from_checked]. rewrite processImages_checked_eq.
  destruct (forallb _ _); [|done].
  destruct (processImages env options state w1) as [[e|state'] w2]; [done|].
  by destruct (deleteMaster env state' w2) as [[e|state''] w3].
Qed.




End CheckedPipelineFacts.

Section CheckedPipelineClaims.
Context {libs : Libraries} {checks : Validation}.
Implicit Types (env : Env) (options : Options) (w : World).
Implicit Types (state : UploadState) (req : Request).


(** X2.  When [randomstring.generate] returns, the type is accepted, the
    master is stored, the start of every size returns, every write
    succeeds and the unlink succeeds, the invocation returns having
    uploaded, started every size, disabled the cache, unlinked the master
    and handed the state to the next middleware; afterwards the master is
    gone, every variant is there, and no other file present before has
    been removed. *)
Theorem successful_run_checked env options req w (file : File)
    (ext : string) :
  randomstring_returns (prop options "fileNameLen") = true →
  req_file req = Some file →
  mime_extension (mimetype file) = Some ext →
  includes (prop options "accept") (JStr ext) = true →
  multer_result env = None →
  forallb (iteratee_returns options)
    (collection_items (prop options "sizes")) = true →
  Forall (λ r, r = None)
    (write_results env
       (variant_writes options (upload_state env options)
          (collection_items (prop options "sizes"))
          (sharp (destination (upload_state env options) +:+ "/" +:+
                  filename (upload_state env options))))) →
  unlink_result env
    (destination (upload_state env options) +:+ "/" +:+
     filename (upload_state env options)) = None →
  let state := upload_state env options in
  let master := destination state +:+ "/" +:+ filename state in
  let sizes := collection_items (prop options "sizes") in
  ∃ w', middleware_checked env options req w = Returned w' ∧
    trace w' =
      trace w ++
      Multer (upload_config env options)
      :: write_events (variant_writes options state sizes (sharp master)) ++
      [Cache false; Unlink master; SetSharper state; Next None] ∧
    (master ∉ files w') ∧
    (∀ size, size ∈ sizes → variant_path options state size ∈ files w') ∧
    (∀ p, p ∈ files w → p ≠ master → p ∈ files w').
Proof.
  intros Hgen Hfile Hext Hacc Hmulter Hreturns Hall Hunlink. cbv zeta.
  exists (middleware env options req w). split.
  - rewrite middleware_checked_eq, Hgen, Hreturns.
    by destruct (masterUpload env options req w) as [[e|state] w1].
  - by eapply successful_run.
Qed.

(** X17.  The upload task goes by the error of multer alone: a request
    that carries no file yields no error, so nothing is stored and yet the
    sizes are started, one after the other until the start of one
    throws. *)
Theorem no_file_request_checked env options req w :
  randomstring_returns (prop options "fileNameLen") = true →
  req_file req = None →
  masterUpload_checked env options req w =
    Returned (Ok (upload_state env options),
              emit (Multer (upload_config env options)) w) ∧
  ∃ w' rest,
    (middleware_checked env options req w = Returned w' ∨
     middleware_checked env options req w = Threw w') ∧
    trace w' =
      trace w ++
      Multer (upload_config env options)
      :: write_events
           (variant_writes options (upload_state env options)
              (started options (collection_items (prop options "sizes")))
              (sharp (destination (upload_state env options) +:+ "/" +:+
                      filename (upload_state env options)))) ++ rest.
Proof.
  intros Hgen Hfile.
  destruct (no_file_request env options req w Hfile) as [Hup Htrace].
  split; [unfold masterUpload_checked; by rewrite Hgen, Hup|].
  rewrite middleware_checked_eq, Hgen, Hup.
  destruct (forallb _ _) eqn:Hall.
  - rewrite (started_all _ _ Hall). destruct Htrace as [rest Htrace].
    eauto.
  - eexists _, []. split; [by right|]. simpl.
    by rewrite app_nil_r, <- app_assoc.
Qed.


End CheckedPipelineClaims.

Section CheckedToggles.
Context {libs : Libraries} {checks : Validation}.

Lemma calls_method_accepted_prefix (name : string) (ops : list Call) :
  calls_method name (accepted_prefix ops) = true →
  calls_method name ops = true.
Proof.
  unfold calls_method. induction ops as [|c ops IH]; [done|]. simpl.
  destruct (call_accepted c); [|done]. simpl.
  intros [->|Hrest]%orb_true_iff; [done|].
  rewrite (IH Hrest). apply orb_true_r.
Qed.

Lemma calls_record_sharp (l : list Call) (path : string) :
  calls (record_calls l (sharp path)) = l.
Proof. reflexivity. Qed.

(** X13.  A value-gated toggle passes its check for every value other than
    the boolean [false]: also for [undefined] (a missing key), [null], 0
    and the empty string.  In a derivation that runs to its end its call
    has been made exactly then; in one ended by a throw its call has been
    made only then. *)
Theorem value_toggles_fire_checked (t : string) (options : Options)
    (size : JSVal) (path : string) :
  nullish size = false →
  t ∈ value_toggles →
  match derive_checked options size (sharp path) with
  | Running query =>
      calls_method t (calls query) = true ↔ prop options t ≠ JBool false
  | Thrown query =>
      calls_method t (calls query) = true → prop options t ≠ JBool false
  end.
Proof.
  intros Hsize Ht.
  pose proof (value_toggles_fire t options size path Ht) as Hfire.
  rewrite fresh_derivation in Hfire.
  rewrite (derive_checked_run _ _ _ Hsize), run_calls_eq.
  destruct (forallb _ _); cbv beta iota; rewrite calls_record_sharp;
    [exact Hfire|].
  intros Hcall%calls_method_accepted_prefix. by apply Hfire.
Qed.

End CheckedToggles.

(** ** The model at work *)

#[local] Existing Instance sample_libraries.

(** The default configuration on an accepted upload: one variant, the
    master removed, the state handed to the next middleware. *)
Example default_run :
  trace (sharper sample_env {["fileNameLen" := JNum 3]} png_request
           initial_world) =
  [Multer {| storage_destination := "/var/www/uploads/2017/Mar/4";
             storage_filename := "aaa";
             limits_fileSize := JStr "10mb";
             limits_files := 1;
             single_field := JStr "file" |};
   ToFile "/var/www/uploads/2017/Mar/4/aaa.lg.jpg"
     {| input := "/var/www/uploads/2017/Mar/4/aaa";
        calls :=
          [{| method := "background";
              args := [JObj [("r", JNum 200); ("g", JNum 200);
                             ("b", JNum 200); ("a", JNum 1)]] |};
           {| method := "resize"; args := [JNum 500; JNum 500] |}] |};
   Cache false;
   Unlink "/var/www/uploads/2017/Mar/4/aaa";
   SetSharper sample_state;
   Next None] ∧
  elements (files (sharper sample_env {["fileNameLen" := JNum 3]} png_request
                     initial_world)) =
  ["/var/www/uploads/2017/Mar/4/aaa.lg.jpg"].
Proof. split; by vm_compute. Qed.

(** A media type without a canonical extension is rejected too; there is
    no extension to report, and the field of the error is [null]. *)
Example unknown_type_run :
  trace (sharper sample_env {["fileNameLen" := JNum 3]}
           {| req_file := Some {| mimetype := "foo/bar" |} |}
           initial_world) =
  [Multer {| storage_destination := "/var/www/uploads/2017/Mar/4";
             storage_filename := "aaa";
             limits_fileSize := JStr "10mb";
             limits_files := 1;
             single_field := JStr "file" |};
   Next (Some (OwnError {| name := "Error";
                           message := JStr "file not acceptable";
                           code := JStr "FILE_TYPE_UNSUPPORTED";
                           field := JNull |}))].
Proof. by vm_compute. Qed.

(** When the write of one size fails, the other variant stays, the master
    is not unlinked, and the error goes to [next]. *)
Example failed_write_run :
  map is_Next (trace (sharper failing_env two_sizes png_request initial_world))
  = [false; false; false; true] ∧
  last (trace (sharper failing_env two_sizes png_request initial_world)) =
  Some (Next (Some (LibraryError "sharp" "output failed"))) ∧
  elements (files (sharper failing_env two_sizes png_request initial_world)) =
  ["/var/www/uploads/2017/Mar/4/aaa.lg.jpg"; "/var/www/uploads/2017/Mar/4/aaa"].
Proof. repeat split; by vm_compute. Qed.

(** Truthy values that are not [true] do not fire a boolean toggle, and an
    angle of 45 does not rotate; a radius does blur. *)
Example loose_values :
  calls (derive_query
           (sharper_options {["embed" := JNum 1; "flip" := JStr "yes";
                              "rotate" := JNum 45; "blur" := JNum 3]})
           size_sm (sharp "m")) =
  [{| method := "background";
      args := [JObj [("r", JNum 200); ("g", JNum 200); ("b", JNum 200);
                     ("a", JNum 1)]] |};
   {| method := "resize"; args := [JNum 100; JNum 100] |};
   {| method := "blur"; args := [JNum 3] |}].
Proof. by vm_compute. Qed.

(** *** Instances of the theorems above *)





Lemma two_sizes_share_master_witness :
  last (trace (sharper sample_env two_sizes png_request initial_world)) =
    Some (Next None) ∧
  ∃ state,
    (masterUpload sample_env (sharper_options two_sizes) png_request
       initial_world).1 = Ok state ∧
    variant_path (sharper_options two_sizes) state size_lg ≠
    variant_path (sharper_options two_sizes) state size_sm ∧
    variant_path (sharper_options two_sizes) state size_lg ∈
      files (sharper sample_env two_sizes png_request initial_world) ∧
    variant_path (sharper_options two_sizes) state size_sm ∈
      files (sharper sample_env two_sizes png_request initial_world).
Proof.
  assert (last (trace (sharper sample_env two_sizes png_request
                         initial_world)) = Some (Next None))
    as Hlast by (vm_compute; reflexivity).
  split; [exact Hlast|].
  destruct (two_sizes_share_master sample_env (sharper_options two_sizes)
              png_request initial_world size_lg size_sm "lg" "sm")
    as (state & Hup & Hne & Hin1 & Hin2 & _).
  - vm_compute; reflexivity.
  - reflexivity.
  - reflexivity.
  - discriminate.
  - exact Hlast.
  - exists state. repeat split; assumption.
Defined.

(** C1 fails as stated.  In a successful invocation with the sizes lg
    (500 by 500) and sm (100 by 100), the write of the sm variant sees an
    instance that carries the resize to 500 by 500 of the lg entry: the
    derivations are not isolated from each other. *)
Lemma sizes_not_isolated :
  last (trace (sharper sample_env two_sizes png_request initial_world)) =
    Some (Next None) ∧
  (∃ query,
     ToFile "/var/www/uploads/2017/Mar/4/aaa.sm.jpg" query ∈
       trace (sharper sample_env two_sizes png_request initial_world) ∧
     {| method := "resize"; args := [JNum 500; JNum 500] |} ∈ calls query) ∧
  ¬ writes_isolated (sharper_options two_sizes) sample_state
      (trace (sharper sample_env two_sizes png_request initial_world)).
Proof.
  set (options := sharper_options two_sizes).
  set (master := sharp "/var/www/uploads/2017/Mar/4/aaa").
  set (query := derive_query options size_sm
                  (derive_query options size_lg master)).
  assert (ToFile "/var/www/uploads/2017/Mar/4/aaa.sm.jpg" query ∈
            trace (sharper sample_env two_sizes png_request initial_world))
    as Hin.
  { apply list_elem_of_In. vm_compute. tauto. }
  split; [by vm_compute|]. split.
  - exists query. split; [exact Hin|].
    apply list_elem_of_In. vm_compute. tauto.
  - intros Hiso. destruct (Hiso _ _ Hin) as (size & Hsize & Hpath & Hquery).
    apply list_elem_of_In in Hsize. vm_compute in Hsize.
    destruct Hsize as [<-|[<-|[]]].
    + vm_compute in Hpath. discriminate Hpath.
    + apply (f_equal calls) in Hquery. vm_compute in Hquery.
      discriminate Hquery.
Qed.

(** *** Instances of the further properties *)


Lemma storage_error_passed_on_witness :
  trace (sharper storage_failing_env ∅ png_request initial_world) =
  trace initial_world ++
  [Multer (upload_config storage_failing_env (sharper_options ∅));
   Next (Some (LibraryError "multer" "LIMIT_FILE_SIZE"))].
Proof.
  refine (proj1 (storage_error_passed_on storage_failing_env
                   (sharper_options ∅) png_request initial_world
                   {| mimetype := "image/png" |}
                   (LibraryError "multer" "LIMIT_FILE_SIZE")
                   eq_refl _ eq_refl)).
  vm_compute; reflexivity.
Defined.


Lemma no_sizes_witness :
  trace (sharper sample_env no_size png_request initial_world) =
  trace initial_world ++
  [Multer (upload_config sample_env (sharper_options no_size)); Cache false;
   Unlink "/var/www/uploads/2017/Mar/4/aaa"] ++
  [SetSharper sample_state; Next None].
Proof.
  refine (no_sizes sample_env (sharper_options no_size) png_request
            initial_world sample_state _ _).
  - vm_compute; reflexivity.
  - vm_compute; reflexivity.
Defined.

Lemma kth_write_witness :
  variant_path (sharper_options two_sizes) sample_state size_sm ≠
  destination sample_state +:+ "/" +:+ filename sample_state.
Proof.
  refine (proj2 (kth_write sample_env (sharper_options two_sizes) sample_state
                   initial_world 1 size_sm _)).
  vm_compute; reflexivity.
Defined.


Lemma derive_query_without_resize_witness :
  derive_query (sharper_options {["resize" := JBool false]}) size_lg
    (sharp "m") =
  derive_query (sharper_options {["resize" := JBool false]}) size_sm
    (sharp "m").
Proof.
  refine (derive_query_without_resize
            (sharper_options {["resize" := JBool false]}) size_lg size_sm
            (sharp "m") _).
  vm_compute. discriminate.
Defined.

Lemma derive_query_other_keys_witness :
  derive_query (<["output" := JStr "png"]> (sharper_options ∅)) size_lg
    (sharp "m") =
  derive_query (sharper_options ∅) size_lg (sharp "m").
Proof.
  refine (derive_query_other_keys (sharper_options ∅) "output" (JStr "png")
            size_lg (sharp "m") _).
  apply (bool_decide_unpack _). vm_compute. exact I.
Defined.

(** *** Runs that throw, and instances of the properties with exceptions *)

#[local] Existing Instance sample_validation.

(** C2 fails as stated.  With a quality of 0 and [progressive] on, the
    progressive toggle is not in its skip state, yet its call is never
    made: sharp rejects [quality(0)] by throwing, which ends the chain
    after the background and the resize. *)
Lemma quality_zero_stops_chain :
  prop (sharper_options zero_quality) "progressive" = JBool true ∧
  derive_checked (sharper_options zero_quality) size_lg (sharp "m") =
  Thrown {| input := "m";
            calls :=
              [{| method := "background";
                  args := [JObj [("r", JNum 200); ("g", JNum 200);
                                 ("b", JNum 200); ("a", JNum 1)]] |};
               {| method := "resize"; args := [JNum 500; JNum 500] |}] |}.
Proof. split; by vm_compute. Qed.

Lemma derive_checked_fixed_order_witness :
  nullish size_lg = false ∧
  derive_checked (sharper_options ∅) size_lg (sharp "m") =
  Running {| input := "m";
             calls :=
               [{| method := "background";
                   args := [JObj [("r", JNum 200); ("g", JNum 200);
                                  ("b", JNum 200); ("a", JNum 1)]] |};
                {| method := "resize"; args := [JNum 500; JNum 500] |}] |}.
Proof.
  split; [reflexivity|].
  etrans; [exact (proj2 (derive_checked_fixed_order (sharper_options ∅)
                           size_lg (sharp "m") eq_refl))|].
  by vm_compute.
Defined.



Lemma successful_run_checked_witness :
  ∃ w, middleware_checked sample_env (sharper_options two_sizes) png_request
         initial_world = Returned w ∧
       variant_path (sharper_options two_sizes)
         (upload_state sample_env (sharper_options two_sizes)) size_sm
         ∈ files w.
Proof.
  destruct (successful_run_checked sample_env (sharper_options two_sizes)
              png_request initial_world {| mimetype := "image/png" |} "png")
    as (w & Hrun & _ & _ & Hvariants & _).
  - vm_compute; reflexivity.
  - reflexivity.
  - reflexivity.
  - vm_compute; reflexivity.
  - reflexivity.
  - vm_compute; reflexivity.
  - vm_compute. repeat constructor.
  - reflexivity.
  - exists w. split; [exact Hrun|]. apply Hvariants.
    apply list_elem_of_In. vm_compute. tauto.
Defined.

Lemma value_toggles_fire_checked_witness :
  derive_checked (sharper_options {["extend" := JNum 0]}) size_lg (sharp "m")
  = Running (derive_query (sharper_options {["extend" := JNum 0]}) size_lg
               (sharp "m")) ∧
  calls_method "extend"
    (calls (derive_query (sharper_options {["extend" := JNum 0]}) size_lg
              (sharp "m"))) = true.
Proof.
  assert (derive_checked (sharper_options {["extend" := JNum 0]}) size_lg
            (sharp "m") =
          Running (derive_query (sharper_options {["extend" := JNum 0]})
                     size_lg (sharp "m"))) as Hrun by (by vm_compute).
  split; [exact Hrun|].
  pose proof (value_toggles_fire_checked "extend"
                (sharper_options {["extend" := JNum 0]}) size_lg "m" eq_refl)
    as Hfire.
  rewrite Hrun in Hfire. apply Hfire.
  - apply (bool_decide_unpack _). vm_compute. exact I.
  - vm_compute. discriminate.
Defined.

Lemma no_file_request_checked_witness :
  masterUpload_checked sample_env (sharper_options two_sizes) empty_request
    initial_world =
  Returned (Ok (upload_state sample_env (sharper_options two_sizes)),
            emit (Multer (upload_config sample_env
                            (sharper_options two_sizes))) initial_world).
Proof.
  refine (proj1 (no_file_request_checked sample_env
                   (sharper_options two_sizes) empty_request initial_world
                   _ eq_refl)).
  vm_compute; reflexivity.
Defined.
